(** * FileStorage (src/src/services/fileStorage.ts): a shallow embedding

    The service talks to the Capacitor [Filesystem] bridge and to a few host
    APIs ([URL.createObjectURL], [setTimeout], [FileReader]).  Each bridge call
    is an event appended to a trace; what the bridge answers is decided by an
    oracle that sees the whole history of calls made so far, so that any
    stateful behaviour of the native file system (a file deleted by an earlier
    call, a directory that does not exist yet, ...) can be represented.
    Async/await is modelled by a state-and-exception monad over the trace: a
    rejected promise is an exception, [try]/[catch] and [.catch] are
    [catch_]. *)

From Stdlib Require Import List String Ascii NArith ZArith Lia Bool.
From Stdlib Require Strings.Byte.
Import ListNotations.
Open Scope list_scope.
Open Scope string_scope.
Open Scope list_scope.

(** ** Bridge calls and host *)

(** [Directory] of @capacitor/filesystem (the two members the service uses). *)
Inductive Directory := Data | External.

(** One call to the host or to the native bridge. *)
Inductive call :=
| CCreateObjectURL                                       (* URL.createObjectURL(file) *)
| CRevokeObjectURL (uri : string)                        (* URL.revokeObjectURL(uri) *)
| CCopy (from to : string) (toDirectory : Directory) (directory : option Directory)
| CWriteFile (path data : string) (directory : Directory) (recursive : bool)
| CAppendFile (path data : string) (directory : Directory)
| CGetUri (path : string) (directory : Directory)
| CReaddir (path : string) (directory : Directory)
| CStat (path : string) (directory : Directory)
| CDeleteFile (path : string) (directory : Directory)
| CYield.                                                (* await new Promise(r => setTimeout(r, 0)) *)

(** What a call resolves to; [RErr] is a rejected promise. *)
Inductive reply :=
| RUnit
| RStr (s : string)
| RFiles (names : list string)
| RSize (n : N)
| RErr (e : string).

(** The host: [Capacitor.isNativePlatform()], the bridge's answers (as a
    function of the history), the fresh [blob:] URL that
    [URL.createObjectURL] hands out, [Capacitor.convertFileSrc], the base64
    text that [FileReader.readAsDataURL] yields after the comma, and the error
    [reader.onerror] rejects with when a read fails ([None]: the read
    succeeds), which may depend on the history. *)
Record host := {
  isNativePlatform : bool;
  bridge : list call -> call -> reply;
  objectURL : list call -> string;
  nativeConvertFileSrc : string -> string;
  blobToBase64 : list Byte.byte -> string;
  readerError : list call -> list Byte.byte -> option string
}.

(** ** The monad: trace state and exceptions *)

Definition M (A : Type) : Type := list call -> list call * (string + A).

Definition ret {A} (a : A) : M A := fun t => (t, inr a).

Definition bind {A B} (m : M A) (k : A -> M B) : M B :=
  fun t => match m t with
           | (t', inl e) => (t', inl e)
           | (t', inr a) => k a t'
           end.

Definition throw {A} (e : string) : M A := fun t => (t, inl e).

Definition catch_ {A} (m : M A) (handler : string -> M A) : M A :=
  fun t => match m t with
           | (t', inl e) => handler e t'
           | r => r
           end.

Notation "x <- m ;; k" := (bind m (fun x => k))
  (at level 61, m at next level, right associativity).
Notation "m ;;; k" := (bind m (fun _ => k))
  (at level 61, right associativity).

Section Service.
Variable H : host.

(** Issue a call and wait for it; the answer is read by the caller. *)
Definition invoke (c : call) : M reply :=
  fun t => let r := bridge H t c in
           (t ++ [c], match r with RErr e => inl e | _ => inr r end).

Definition invoke_unit (c : call) : M unit :=
  r <- invoke c ;; ret tt.

Definition invoke_str (c : call) : M string :=
  r <- invoke c ;;
  match r with RStr s => ret s | _ => throw "TypeError" end.

Definition invoke_files (c : call) : M (list string) :=
  r <- invoke c ;;
  match r with RFiles l => ret l | _ => throw "TypeError" end.

Definition invoke_size (c : call) : M N :=
  r <- invoke c ;;
  match r with RSize n => ret n | _ => throw "TypeError" end.

End Service.

(** ** Data *)

(** The [File] the service receives.  [path] and [webPath] are the fields
    Capacitor Android may inject (absent on other pickers). *)
Record File := {
  name : string;
  type : string;
  bytes : list Byte.byte;
  path : option string;
  webPath : option string
}.

(** [file.size] *)
Definition file_size (f : File) : N := N.of_nat (List.length (bytes f)).

Record SaveFileResult := {
  uri : string;
  size : N;
  mimeType : string
}.

Record StorageEntry := {
  entry_name : string;
  entry_path : string;
  entry_category : string;
  entry_size : N
}.

(** JavaScript truthiness of an optional string ([undefined] and [""] are
    falsy), and the value [a || b]. *)
Definition truthy (o : option string) : bool :=
  match o with Some s => negb (String.eqb s "") | None => false end.

Definition js_or (a b : option string) : option string :=
  if truthy a then a else b.

(** [const FILE_SIZE_THRESHOLD = 1 * 1024 * 1024] *)
Definition FILE_SIZE_THRESHOLD : Z := 1 * 1024 * 1024.

(** [const chunkSize = 1024 * 1024] in [saveFileChunked] *)
Definition chunkSize : N := 1024 * 1024.

(** ** String helpers with JavaScript's semantics *)

Definition dot : ascii := "."%char.

(** [s.split('.')]: the pieces between dots, always at least one. *)
Fixpoint split_dot (s : string) : list string :=
  match s with
  | EmptyString => [EmptyString]
  | String c s' =>
      let segs := split_dot s' in
      if Ascii.eqb c dot then EmptyString :: segs
      else match segs with
           | seg :: rest => String c seg :: rest
           | [] => [String c EmptyString]
           end
  end.

(** [arr.pop()] on the (never empty) result of [split]. *)
Definition pop (l : list string) : string := last l EmptyString.

(** Decimal rendering of a non-negative integer, as [`${n}`] does. *)
Definition digit_char (n : nat) : ascii := ascii_of_nat (48 + n).

Fixpoint uint_to_string (d : Decimal.uint) : string :=
  match d with
  | Decimal.Nil => EmptyString
  | Decimal.D0 d' => String (digit_char 0) (uint_to_string d')
  | Decimal.D1 d' => String (digit_char 1) (uint_to_string d')
  | Decimal.D2 d' => String (digit_char 2) (uint_to_string d')
  | Decimal.D3 d' => String (digit_char 3) (uint_to_string d')
  | Decimal.D4 d' => String (digit_char 4) (uint_to_string d')
  | Decimal.D5 d' => String (digit_char 5) (uint_to_string d')
  | Decimal.D6 d' => String (digit_char 6) (uint_to_string d')
  | Decimal.D7 d' => String (digit_char 7) (uint_to_string d')
  | Decimal.D8 d' => String (digit_char 8) (uint_to_string d')
  | Decimal.D9 d' => String (digit_char 9) (uint_to_string d')
  end.

Definition show_N (n : N) : string := uint_to_string (N.to_uint n).

(** [str.substring(a, b)] for [0 <= a <= b]. *)
Definition js_substring (s : string) (a b : nat) : string := substring a (b - a) s.

(** [Blob.slice(start, end)] on the bytes, with [end] clamped to the size. *)
Fixpoint takeN (n : N) (l : list Byte.byte) : list Byte.byte :=
  match l with
  | [] => []
  | x :: l' => if (n =? 0)%N then [] else x :: takeN (N.pred n) l'
  end.

Fixpoint dropN (n : N) (l : list Byte.byte) : list Byte.byte :=
  match l with
  | [] => []
  | x :: l' => if (n =? 0)%N then l else dropN (N.pred n) l'
  end.

Definition slice (l : list Byte.byte) (start end_ : N) : list Byte.byte :=
  takeN (end_ - start) (dropN start l).

(** The regular expression [/aurora-files\/.+/] of [deleteFile]: the first
    position where ["aurora-files/"] is followed by at least one character
    other than a line terminator; the match runs greedily to the end of the
    line. *)
Definition managed_root : string := "aurora-files/".

Definition is_line_terminator (c : ascii) : bool :=
  Ascii.eqb c (ascii_of_nat 10) || Ascii.eqb c (ascii_of_nat 13).

Fixpoint line_prefix (s : string) : string :=
  match s with
  | EmptyString => EmptyString
  | String c s' => if is_line_terminator c then EmptyString else String c (line_prefix s')
  end.

Definition match_at (s : string) : option string :=
  if prefix managed_root s then
    match line_prefix (substring (String.length managed_root) (String.length s) s) with
    | EmptyString => None
    | l => Some (managed_root ++ l)%string
    end
  else None.

Fixpoint match_managed (s : string) : option string :=
  match s with
  | EmptyString => None
  | String _ s' =>
      match match_at s with
      | Some m => Some m
      | None => match_managed s'
      end
  end.

(** ** The service *)

(** The [{ nativeUri?: string, content?: string }] argument of [getFileUrl]. *)
Record FsNode := { nativeUri : option string; content : option string }.

Section FileStorage.
Variable H : host.

(** [getCategory] *)
Definition getCategory (mimeType : string) : string :=
  if prefix "video/" mimeType then "videos"
  else if prefix "audio/" mimeType then "audio"
  else if prefix "image/" mimeType then "images"
  else "documents".

(** [generateFilename]; [now] is [Date.now()] and [rnd36] is the string
    [Math.random().toString(36)]; [fileExtension] is
    [originalName.split('.').pop() || 'bin']. *)
Definition fileExtension (originalName : string) : string :=
  let e := pop (split_dot originalName) in
  if String.eqb e "" then "bin" else e.

Definition generateFilename (originalName : string) (now : N) (rnd36 : string) : string :=
  let timestamp := show_N now in
  let random := js_substring rnd36 2 8 in
  let ext := fileExtension originalName in
  (timestamp ++ "_" ++ random ++ "." ++ ext)%string.

(** [`aurora-files/${category}/${filename}`] as computed in [saveFile]. *)
Definition savePath (f : File) (now : N) (rnd36 : string) : string :=
  ("aurora-files/" ++ getCategory (type f) ++ "/" ++ generateFilename (name f) now rnd36)%string.

(** [file.path || file.webPath] *)
Definition sourceUri (f : File) : option string := js_or (path f) (webPath f).

(** Host calls that never reject: [URL.createObjectURL], [URL.revokeObjectURL]
    and the [setTimeout] yield. *)
Definition createObjectURL : M string :=
  fun t => (t ++ [CCreateObjectURL], inr (objectURL H t)).

Definition emit (c : call) : M unit := fun t => (t ++ [c], inr tt).

(** [blobToBase64(blob)]: the [FileReader] either rejects with its error or
    resolves with the base64 part of the data URL.  It makes no bridge call. *)
Definition readAsBase64 (blob : list Byte.byte) : M string :=
  fun t => match readerError H t blob with
           | Some e => (t, inl e)
           | None => (t, inr (blobToBase64 H blob))
           end.

(** The [while (offset < file.size)] loop of [saveFileChunked].  [fuel]
    bounds the number of iterations; [saveFileChunked] gives it one more than
    the file size, which the loop never exhausts (see [chunk_loop_run]). *)
Fixpoint chunk_loop (f : File) (path : string) (fuel : nat) (offset : N) (isFirstChunk : bool)
  : M unit :=
  match fuel with
  | O => ret tt
  | S fuel' =>
      if (offset <? file_size f)%N then
        let chunk := slice (bytes f) offset (offset + chunkSize) in
        base64 <- readAsBase64 chunk ;;
        (if isFirstChunk
         then invoke_unit H (CWriteFile path base64 Data true)
         else invoke_unit H (CAppendFile path base64 Data)) ;;;
        emit CYield ;;;
        chunk_loop f path fuel' (offset + chunkSize) false
      else ret tt
  end.

Definition saveFileChunked (f : File) (path : string) : M unit :=
  chunk_loop f path (S (List.length (bytes f))) 0 true.

(** [saveFile].  The [console.warn]/[console.error] output is not modelled;
    the outer [catch] re-throws. *)
Definition saveFile (f : File) (now : N) (rnd36 : string) : M SaveFileResult :=
  if negb (isNativePlatform H) then
    blobUrl <- createObjectURL ;;
    ret {| uri := blobUrl; size := file_size f; mimeType := type f |}
  else
    catch_
      (let path := savePath f now rnd36 in
       (match sourceUri f with
        | Some src =>
            if truthy (Some src) then
              catch_ (invoke_unit H (CCopy src path Data (Some External)))
                     (fun _ => invoke_unit H (CCopy src path Data None))
            else saveFileChunked f path
        | None => saveFileChunked f path
        end) ;;;
       result <- invoke_str H (CGetUri path Data) ;;
       ret {| uri := result; size := file_size f; mimeType := type f |})
      (fun error => throw error).

(** [shouldUseNativeStorage] *)
Definition shouldUseNativeStorage (fileSize : Z) : bool :=
  isNativePlatform H && (FILE_SIZE_THRESHOLD <=? fileSize)%Z.

(** [deleteFile] *)
Definition deleteFile (u : string) : M unit :=
  if negb (isNativePlatform H) then
    (if prefix "blob:" u then emit (CRevokeObjectURL u) else ret tt) ;;;
    ret tt
  else
    catch_
      (match match_managed u with
       | Some m => invoke_unit H (CDeleteFile m Data)
       | None => ret tt
       end)
      (fun _ => ret tt).

(** [convertFileSrc]: a pure function of the URI. *)
Definition convertFileSrc (u : string) : string :=
  if negb (isNativePlatform H) then u else nativeConvertFileSrc H u.

Definition categories : list string := ["videos"; "audio"; "images"; "documents"].

(** The inner [for (const file of result.files)] loop of
    [getNativeStorageStats]; a failing [stat] is skipped. *)
Fixpoint sum_sizes (cat : string) (files : list string) (totalSize : N) : M N :=
  match files with
  | [] => ret totalSize
  | fname :: rest =>
      totalSize' <-
        catch_ (st <- invoke_size H (CStat ("aurora-files/" ++ cat ++ "/" ++ fname) Data) ;;
                ret (totalSize + st)%N)
               (fun _ => ret totalSize) ;;
      sum_sizes cat rest totalSize'
  end.

(** The [for (const cat of categories)] loop.  The [catch] of a category body
    restores the totals it started with: that body can only throw in
    [readdir], before it changes them ([sum_sizes] never throws). *)
Fixpoint stats_loop (cats : list string) (totalCount totalSize : N) : M (N * N) :=
  match cats with
  | [] => ret (totalCount, totalSize)
  | cat :: rest =>
      acc <-
        catch_ (files <- invoke_files H (CReaddir ("aurora-files/" ++ cat) Data) ;;
                let totalCount' := (totalCount + N.of_nat (List.length files))%N in
                totalSize' <- sum_sizes cat files totalSize ;;
                ret (totalCount', totalSize'))
               (fun _ => ret (totalCount, totalSize)) ;;
      stats_loop rest (fst acc) (snd acc)
  end.

(** [getNativeStorageStats], returning [(count, size)].  Its outer [try]
    never catches anything: every category body is guarded. *)
Definition getNativeStorageStats : M (N * N) :=
  if negb (isNativePlatform H) then ret (0%N, 0%N)
  else stats_loop categories 0 0.

(** [getNativeStorageFiles] *)
Fixpoint list_entries (cat : string) (files : list string) (acc : list StorageEntry)
  : M (list StorageEntry) :=
  match files with
  | [] => ret acc
  | fname :: rest =>
      let p := ("aurora-files/" ++ cat ++ "/" ++ fname)%string in
      acc' <-
        catch_ (st <- invoke_size H (CStat p Data) ;;
                ret (acc ++ [{| entry_name := fname; entry_path := p;
                                entry_category := cat; entry_size := st |}]))
               (fun _ => ret acc) ;;
      list_entries cat rest acc'
  end.

Fixpoint files_loop (cats : list string) (acc : list StorageEntry) : M (list StorageEntry) :=
  match cats with
  | [] => ret acc
  | cat :: rest =>
      acc' <-
        catch_ (files <- invoke_files H (CReaddir ("aurora-files/" ++ cat) Data) ;;
                list_entries cat files acc)
               (fun _ => ret acc) ;;
      files_loop rest acc'
  end.

Definition getNativeStorageFiles : M (list StorageEntry) :=
  if negb (isNativePlatform H) then ret []
  else files_loop categories [].

(** [getFileUrl] *)
Definition getFileUrl (node : FsNode) : string :=
  let fallback := match js_or (content node) (Some "") with Some c => c | None => "" end in
  match nativeUri node with
  | Some u => if truthy (Some u) then convertFileSrc u else fallback
  | None => fallback
  end.

End FileStorage.

(** ** Observations on traces *)

Definition is_chunk_write (c : call) : bool :=
  match c with CWriteFile _ _ _ _ | CAppendFile _ _ _ => true | _ => false end.

(** The base64 text a chunk-write call carries. *)
Definition payload (c : call) : string :=
  match c with CWriteFile _ d _ _ | CAppendFile _ d _ => d | _ => EmptyString end.

Definition chunk_writes (l : list call) : list call := filter is_chunk_write l.

(** Calls on the native file system (not the host's blob URLs or timers). *)
Definition is_native_fs_call (c : call) : bool :=
  match c with
  | CCopy _ _ _ _ | CWriteFile _ _ _ _ | CAppendFile _ _ _ | CGetUri _ _
  | CReaddir _ _ | CStat _ _ | CDeleteFile _ _ => true
  | _ => false
  end.

(** The path a call works on. *)
Definition call_path (c : call) : option string :=
  match c with
  | CCopy _ to _ _ => Some to
  | CWriteFile p _ _ _ | CAppendFile p _ _ | CGetUri p _
  | CReaddir p _ | CStat p _ | CDeleteFile p _ => Some p
  | _ => None
  end.

Definition is_delete (c : call) : bool :=
  match c with CDeleteFile _ _ => true | _ => false end.

(** [ceil(a / b)] *)
Definition ceil_div (a b : N) : N := ((a + b - 1) / b)%N.

(** The calls [k] successful iterations of [chunk_loop] make from [offset]. *)
Fixpoint loop_calls (H : host) (f : File) (p : string) (k : nat) (offset : N) (isFirstChunk : bool)
  : list call :=
  match k with
  | O => []
  | S k' =>
      let base64 := blobToBase64 H (slice (bytes f) offset (offset + chunkSize)) in
      (if isFirstChunk then CWriteFile p base64 Data true else CAppendFile p base64 Data)
        :: CYield :: loop_calls H f p k' (offset + chunkSize) false
  end.

(** The shape of a [chunk_loop] trace: chunk writes, each followed by a yield,
    except possibly a last write that failed. *)
Inductive chunk_trace : list call -> Prop :=
| ct_nil : chunk_trace []
| ct_failed w : is_chunk_write w = true -> chunk_trace [w]
| ct_step w l : is_chunk_write w = true -> chunk_trace l -> chunk_trace (w :: CYield :: l).

(** The calls [saveFile] is written to make: blob URLs, copies, chunk
    writes, yields and [getUri]. *)
Definition is_save_call (c : call) : bool :=
  match c with
  | CCreateObjectURL | CCopy _ _ _ _ | CWriteFile _ _ _ _ | CAppendFile _ _ _
  | CYield | CGetUri _ _ => true
  | _ => false
  end.

(** Sum of a list of sizes. *)
Definition sumN (l : list N) : N := fold_right N.add 0%N l.

(** The shape every entry of [getNativeStorageFiles] has. *)
Definition entry_ok (e : StorageEntry) : Prop :=
  In (entry_category e) categories /\
  entry_path e = ("aurora-files/" ++ entry_category e ++ "/" ++ entry_name e)%string.

Definition is_stat (c : call) : bool := match c with CStat _ _ => true | _ => false end.


(** ** The path pattern of the spec

    Spec-side reading of
    [aurora-files/{videos|audio|images|documents}/\d+_[a-z0-9]{6}\.\w+]
    as an unanchored regular-expression search, to be compared with
    [savePath]. *)
Definition is_digit (c : ascii) : bool :=
  let n := nat_of_ascii c in (48 <=? n)%nat && (n <=? 57)%nat.

Definition is_lower_alnum (c : ascii) : bool :=
  let n := nat_of_ascii c in is_digit c || ((97 <=? n)%nat && (n <=? 122)%nat).

Definition is_word_char (c : ascii) : bool :=
  let n := nat_of_ascii c in
  is_lower_alnum c || ((65 <=? n)%nat && (n <=? 90)%nat) || (n =? 95)%nat.

(** [[a-z0-9]{n}\.\w] *)
Fixpoint p2_random (n : nat) (s : string) : bool :=
  match n, s with
  | O, String c s' =>
      Ascii.eqb c dot && match s' with String w _ => is_word_char w | EmptyString => false end
  | S n', String c s' => is_lower_alnum c && p2_random n' s'
  | _, EmptyString => false
  end.

(** [\d+_] then the rest; [seen] records that a digit was read. *)
Fixpoint p2_digits (seen : bool) (s : string) : bool :=
  match s with
  | EmptyString => false
  | String c s' =>
      if is_digit c then p2_digits true s'
      else seen && Ascii.eqb c "_"%char && p2_random 6 s'
  end.

Definition drop (n : nat) (s : string) : string := substring n (String.length s - n) s.

Definition p2_match_at (s : string) : bool :=
  prefix managed_root s &&
  existsb (fun cat =>
             let r := drop (String.length managed_root) s in
             prefix (cat ++ "/") r && p2_digits false (drop (String.length (cat ++ "/")) r))
          categories.

Fixpoint p2_path_shape (s : string) : bool :=
  p2_match_at s || match s with String _ s' => p2_path_shape s' | EmptyString => false end.

(** ** Concrete hosts used to exercise the statements *)

(** A native bridge on which every call succeeds. *)
Definition ok_bridge (hist : list call) (c : call) : reply :=
  match c with
  | CGetUri p _ => RStr ("file:///data/user/0/app/files/" ++ p)
  | CReaddir _ _ => RFiles []
  | CStat _ _ => RSize 0
  | _ => RUnit
  end.

Definition mk_host (native : bool) (b : list call -> call -> reply) : host :=
  {| isNativePlatform := native;
     bridge := b;
     objectURL := fun hist => ("blob:http://localhost/" ++ show_N (N.of_nat (List.length hist)))%string;
     nativeConvertFileSrc := fun u => ("https://localhost/_capacitor_file_" ++ u)%string;
     blobToBase64 := string_of_list_byte;
     readerError := fun _ _ => None |}.

Definition native_ok_host : host := mk_host true ok_bridge.
Definition web_host : host := mk_host false ok_bridge.

(** A bridge whose [copy] always rejects. *)
Definition copy_fail_bridge (hist : list call) (c : call) : reply :=
  match c with
  | CCopy _ _ _ None => RErr "copy failed (retry)"
  | CCopy _ _ _ _ => RErr "copy failed"
  | _ => ok_bridge hist c
  end.

(** A storage tree with two videos, the second deleted while being
    scanned (its [stat] fails), and no other category directory. *)
Definition scan_bridge (hist : list call) (c : call) : reply :=
  match c with
  | CReaddir p _ =>
      if String.eqb p "aurora-files/videos" then RFiles ["1_aaaaaa.mp4"; "2_bbbbbb.mp4"]
      else RErr "Directory does not exist"
  | CStat p _ =>
      if String.eqb p "aurora-files/videos/1_aaaaaa.mp4" then RSize 5
      else RErr "File does not exist"
  | _ => ok_bridge hist c
  end.

(** A storage tree in which every [stat] succeeds: two videos, one song,
    no image or document directory. *)
Definition full_scan_bridge (hist : list call) (c : call) : reply :=
  match c with
  | CReaddir p _ =>
      if String.eqb p "aurora-files/videos" then RFiles ["1_aaaaaa.mp4"; "2_bbbbbb.mp4"]
      else if String.eqb p "aurora-files/audio" then RFiles ["3_cccccc.mp3"]
      else RErr "Directory does not exist"
  | CStat p _ => RSize (N.of_nat (String.length p))
  | _ => ok_bridge hist c
  end.

(** A bridge on which writing a new file fails. *)
Definition write_fail_bridge (hist : list call) (c : call) : reply :=
  match c with
  | CWriteFile _ _ _ _ => RErr "No space left on device"
  | _ => ok_bridge hist c
  end.

(** A [deleteFile] that rejects once the file is gone. *)
Definition delete_bridge (hist : list call) (c : call) : reply :=
  match c with
  | CDeleteFile p _ => if existsb (fun c' => match c' with
                                              | CDeleteFile p' _ => String.eqb p p'
                                              | _ => false end) hist
                       then RErr "File does not exist" else RUnit
  | _ => ok_bridge hist c
  end.

Definition sample_file (n : string) (ty : string) (bs : list Byte.byte) : File :=
  {| name := n; type := ty; bytes := bs; path := None; webPath := None |}.

Definition clip_file : File := sample_file "clip.mp4" "video/mp4" [Byte.x01; Byte.x02; Byte.x03].

Definition empty_file : File := sample_file "notes.txt" "text/plain" [].

(** A file picked natively: Capacitor filled in its [path]. *)
Definition picked_file : File :=
  {| name := "clip.mp4"; type := "video/mp4"; bytes := [Byte.x01];
     path := Some "content://media/external/video/42"; webPath := None |}.

(** A file whose [path] is empty and whose [webPath] is set. *)
Definition webpath_file : File :=
  {| name := "clip.mp4"; type := "video/mp4"; bytes := [Byte.x01];
     path := Some ""; webPath := Some "capacitor://localhost/_capacitor_file_/cache/clip.mp4" |}.

(** A file one byte longer than a chunk. *)
Definition big_file : File :=
  sample_file "big.bin" "application/octet-stream" (repeat Byte.x00 (N.to_nat 1048577)).

(** A native host whose base64 encoder ignores the bytes (keeps traces small). *)
Definition native_const_b64_host : host :=
  {| isNativePlatform := true; bridge := ok_bridge; objectURL := fun _ => "blob:x";
     nativeConvertFileSrc := fun u => u; blobToBase64 := fun _ => "AAAA";
     readerError := fun _ _ => None |}.

(** A native host whose [FileReader] fails on every read. *)
Definition reader_fail_host : host :=
  {| isNativePlatform := true; bridge := ok_bridge; objectURL := fun _ => "blob:x";
     nativeConvertFileSrc := fun u => u; blobToBase64 := string_of_list_byte;
     readerError := fun _ _ => Some "NotReadableError" |}.

(** ** The upload progress toast of [notify.uploadProgress] *)

(** What the page's toaster is asked to do: show a new toast, re-render an
    existing one, or dismiss one.  A toast carries the progress it renders. *)
Inductive toast_op :=
| ToastCreate (id : nat) (progress : Z)
| ToastUpdate (id : nat) (progress : Z)
| ToastDismiss (id : nat).

(** The toaster: [toast.custom] without an [id] hands out the next id. *)
Record toaster := { next_id : nat; shown : list toast_op }.

(** The variables an [uploadProgress] call closes over. *)
Record upload := { toastId : option nat; currentProgress : Z }.

(** [notify.uploadProgress(fileName, fileSize)]: the closure state it starts with. *)
Definition uploadProgress : upload := {| toastId := None; currentProgress := 0 |}.

(** [updateProgress(progress)] *)
Definition updateProgress (progress : Z) (u : upload) (ts : toaster) : upload * toaster :=
  let cp := Z.min progress 100 in
  match toastId u with
  | None =>
      ({| toastId := Some (next_id ts); currentProgress := cp |},
       {| next_id := S (next_id ts); shown := shown ts ++ [ToastCreate (next_id ts) cp] |})
  | Some id =>
      ({| toastId := Some id; currentProgress := cp |},
       {| next_id := next_id ts; shown := shown ts ++ [ToastUpdate id cp] |})
  end.

(** [complete()] *)
Definition complete (u : upload) (ts : toaster) : upload * toaster :=
  let ts' := match toastId u with
             | Some id => {| next_id := next_id ts; shown := shown ts ++ [ToastDismiss id] |}
             | None => ts
             end in
  ({| toastId := None; currentProgress := currentProgress u |}, ts').

(** A sequence of [updateProgress] calls. *)
Fixpoint run_updates (ps : list Z) (u : upload) (ts : toaster) : upload * toaster :=
  match ps with
  | [] => (u, ts)
  | p :: rest => let '(u', ts') := updateProgress p u ts in run_updates rest u' ts'
  end.

(** * Proofs *)

(** ** Monad steps *)

Lemma bind_invoke_unit {B} H c (k : unit -> M B) t :
  bind (invoke_unit H c) k t =
  match bridge H t c with
  | RErr e => (t ++ [c], inl e)
  | _ => k tt (t ++ [c])
  end.
Proof. unfold bind, invoke_unit, invoke, ret; cbn. destruct (bridge H t c); reflexivity. Qed.

Lemma bind_read {B} H bs (k : string -> M B) t :
  bind (readAsBase64 H bs) k t =
  match readerError H t bs with
  | Some e => (t, inl e)
  | None => k (blobToBase64 H bs) t
  end.
Proof. unfold bind, readAsBase64. destruct (readerError H t bs); reflexivity. Qed.

Lemma bind_emit {B} c (k : unit -> M B) t : bind (emit c) k t = k tt (t ++ [c]).
Proof. reflexivity. Qed.

Lemma bind_ret {A B} (a : A) (k : A -> M B) t : bind (ret a) k t = k a t.
Proof. reflexivity. Qed.

Lemma catch_rethrow {A} (m : M A) t : catch_ m (fun e => throw e) t = m t.
Proof. unfold catch_, throw. destruct (m t) as [t' [e|a]]; reflexivity. Qed.

(** ** Byte slices *)

Lemma takeN_dropN (n : N) l : takeN n l ++ dropN n l = l.
Proof.
  revert n; induction l as [|x l IH]; intros n; cbn; [reflexivity|].
  destruct (N.eqb_spec n 0); cbn; [reflexivity|]. now rewrite IH.
Qed.

Lemma dropN_add (a b : N) l : dropN (a + b) l = dropN b (dropN a l).
Proof.
  revert a; induction l as [|x l IH]; intros a; cbn.
  - destruct b; reflexivity.
  - destruct (N.eqb_spec (a + b) 0), (N.eqb_spec a 0); cbn; subst.
    + assert (b = 0%N) by lia; subst; cbn; reflexivity.
    + lia.
    + rewrite N.add_0_l. destruct b; [lia|reflexivity].
    + replace (N.pred (a + b)) with (N.pred a + b)%N by lia. apply IH.
Qed.

Lemma dropN_all (n : N) l : (N.of_nat (List.length l) <= n)%N -> dropN n l = [].
Proof.
  revert n; induction l as [|x l IH]; intros n Hn; cbn; [reflexivity|].
  cbn [List.length] in Hn. destruct (N.eqb_spec n 0); [lia|]. apply IH; lia.
Qed.

Lemma slice_chunk l off : slice l off (off + chunkSize) = takeN chunkSize (dropN off l).
Proof. unfold slice. f_equal. lia. Qed.

(** ** Chunk counting *)

Lemma chunkSize_pos : (0 < chunkSize)%N.
Proof. unfold chunkSize; lia. Qed.

Lemma ceil_div_pos a b : (0 < b)%N -> (0 < a)%N -> ceil_div a b = ((a - 1) / b + 1)%N.
Proof.
  intros Hb Ha. unfold ceil_div.
  replace (a + b - 1)%N with ((a - 1) + 1 * b)%N by lia.
  rewrite N.div_add by lia. reflexivity.
Qed.

Lemma ceil_div_sub a b : (0 < b)%N -> (0 < a)%N -> ceil_div (a - b) b = ((a - 1) / b)%N.
Proof.
  intros Hb Ha. unfold ceil_div.
  destruct (N.le_gt_cases b a).
  - f_equal. lia.
  - replace (a - b + b - 1)%N with (b - 1)%N by lia.
    rewrite (N.div_small (b - 1)) by lia. rewrite N.div_small by lia. reflexivity.
Qed.

Lemma ceil_div_zero b : (0 < b)%N -> ceil_div 0 b = 0%N.
Proof. intros Hb. unfold ceil_div. apply N.div_small. lia. Qed.

Lemma ceil_div_le a b : (0 < b)%N -> (ceil_div a b <= a)%N.
Proof.
  intros Hb. destruct (N.eq_dec a 0) as [->|Ha].
  - rewrite ceil_div_zero by lia. lia.
  - rewrite ceil_div_pos by lia.
    assert ((a - 1) / b <= a - 1)%N by (apply N.Div0.div_le_upper_bound; nia). lia.
Qed.

Lemma ceil_div_cover a b : (0 < b)%N -> (a <= ceil_div a b * b)%N.
Proof.
  intros Hb. unfold ceil_div.
  pose proof (N.div_mod (a + b - 1) b ltac:(lia)) as Hdm.
  pose proof (N.mod_lt (a + b - 1) b ltac:(lia)) as Hm. nia.
Qed.

(** ** The chunk loop *)

Lemma chunk_loop_run H f p : forall fuel off first t t',
  (N.to_nat (ceil_div (file_size f - off) chunkSize) <= fuel)%nat ->
  chunk_loop H f p fuel off first t = (t', inr tt) ->
  t' = t ++ loop_calls H f p (N.to_nat (ceil_div (file_size f - off) chunkSize)) off first.
Proof.
  pose proof chunkSize_pos as Hc.
  induction fuel as [|fuel IH]; intros off first t t' Hle Hrun.
  - replace (N.to_nat _) with 0%nat by lia. cbn in Hrun. injection Hrun as <-.
    now rewrite app_nil_r.
  - cbn [chunk_loop] in Hrun. destruct (N.ltb_spec off (file_size f)) as [Hlt|Hge].
    + assert (Hstep : N.to_nat (ceil_div (file_size f - off) chunkSize)
                      = S (N.to_nat (ceil_div (file_size f - (off + chunkSize)) chunkSize))).
      { rewrite N.sub_add_distr, ceil_div_pos, ceil_div_sub by lia. lia. }
      rewrite Hstep in Hle |- *. cbn [loop_calls].
      rewrite bind_read in Hrun. destruct (readerError H t _); [discriminate|].
      destruct first; rewrite bind_invoke_unit in Hrun;
        destruct (bridge H t _); try discriminate; rewrite bind_emit in Hrun;
        apply IH in Hrun; try lia; rewrite Hrun, <- !app_assoc; reflexivity.
    + replace (file_size f - off)%N with 0%N by lia. rewrite ceil_div_zero by lia.
      cbn in Hrun |- *. injection Hrun as <-. now rewrite app_nil_r.
Qed.

Lemma saveFileChunked_run H f p t t' :
  saveFileChunked H f p t = (t', inr tt) ->
  t' = t ++ loop_calls H f p (N.to_nat (ceil_div (file_size f) chunkSize)) 0 true.
Proof.
  intros Hrun. unfold saveFileChunked in Hrun.
  apply chunk_loop_run in Hrun.
  - now rewrite N.sub_0_r in Hrun.
  - rewrite N.sub_0_r. pose proof (ceil_div_le (file_size f) chunkSize chunkSize_pos).
    unfold file_size in *. lia.
Qed.

(** When no read fails and the bridge accepts every chunk write, the loop
    runs to completion and issues exactly [loop_calls]. *)
Lemma chunk_loop_ok H f p
  (Hread : forall h bs, readerError H h bs = None)
  (Hwrite : forall h c e, is_chunk_write c = true -> bridge H h c <> RErr e) :
  forall fuel off first t,
  (N.to_nat (ceil_div (file_size f - off) chunkSize) <= fuel)%nat ->
  chunk_loop H f p fuel off first t
  = (t ++ loop_calls H f p (N.to_nat (ceil_div (file_size f - off) chunkSize)) off first, inr tt).
Proof.
  pose proof chunkSize_pos as Hc.
  induction fuel as [|fuel IH]; intros off first t Hle.
  - replace (N.to_nat _) with 0%nat by lia. cbn. now rewrite app_nil_r.
  - cbn [chunk_loop]. destruct (N.ltb_spec off (file_size f)) as [Hlt|Hge].
    + assert (Hstep : N.to_nat (ceil_div (file_size f - off) chunkSize)
                      = S (N.to_nat (ceil_div (file_size f - (off + chunkSize)) chunkSize))).
      { rewrite N.sub_add_distr, ceil_div_pos, ceil_div_sub by lia. lia. }
      rewrite Hstep in Hle |- *. cbn [loop_calls].
      rewrite bind_read, Hread.
      destruct first; rewrite bind_invoke_unit;
        match goal with
        | |- context [bridge H t ?w] =>
            destruct (bridge H t w) eqn:Eb;
            [ .. | exfalso; exact (Hwrite t w _ eq_refl Eb)]
        end;
        rewrite bind_emit, IH by lia; rewrite <- !app_assoc; reflexivity.
    + replace (file_size f - off)%N with 0%N by lia. rewrite ceil_div_zero by lia.
      cbn. now rewrite app_nil_r.
Qed.

Lemma saveFileChunked_ok H f p t
  (Hread : forall h bs, readerError H h bs = None)
  (Hwrite : forall h c e, is_chunk_write c = true -> bridge H h c <> RErr e) :
  saveFileChunked H f p t
  = (t ++ loop_calls H f p (N.to_nat (ceil_div (file_size f) chunkSize)) 0 true, inr tt).
Proof.
  unfold saveFileChunked. rewrite chunk_loop_ok by
    (try assumption; rewrite N.sub_0_r; pose proof (ceil_div_le (file_size f) chunkSize chunkSize_pos);
     unfold file_size in *; lia).
  now rewrite N.sub_0_r.
Qed.

Lemma big_file_size : file_size big_file = 1048577%N.
Proof. unfold file_size, big_file, sample_file. cbn [bytes]. rewrite repeat_length. apply N2Nat.id. Qed.

Lemma native_ok_host_writes h c e :
  is_chunk_write c = true -> bridge native_ok_host h c <> RErr e.
Proof. destruct c; try discriminate; intros _; cbn; discriminate. Qed.

Lemma loop_calls_writes_length H f p k off first :
  List.length (chunk_writes (loop_calls H f p k off first)) = k.
Proof.
  revert off first; induction k as [|k IH]; intros off first; [reflexivity|].
  cbn. destruct first; cbn; now rewrite IH.
Qed.

Lemma loop_calls_appends H f p k off :
  Forall (fun c => exists d, c = CAppendFile p d Data) (chunk_writes (loop_calls H f p k off false)).
Proof.
  revert off; induction k as [|k IH]; intros off; cbn; constructor; eauto.
Qed.

Lemma loop_calls_nth H f p k off first i :
  (i < k)%nat ->
  nth_error (map payload (chunk_writes (loop_calls H f p k off first))) i
  = Some (blobToBase64 H (slice (bytes f) (off + N.of_nat i * chunkSize)
                                (off + N.of_nat i * chunkSize + chunkSize))).
Proof.
  revert off first i; induction k as [|k IH]; intros off first i Hi; [lia|].
  destruct i as [|i].
  - replace (off + N.of_nat 0 * chunkSize)%N with off by lia.
    cbn [loop_calls]. destruct first; reflexivity.
  - replace (off + N.of_nat (S i) * chunkSize)%N
      with ((off + chunkSize) + N.of_nat i * chunkSize)%N by lia.
    cbn [loop_calls]. destruct first; cbn [chunk_writes filter is_chunk_write map];
      apply IH; lia.
Qed.

Lemma loop_calls_concat H f p (dec : string -> list Byte.byte) k off first :
  (forall bs, dec (blobToBase64 H bs) = bs) ->
  (N.of_nat (List.length (bytes f)) <= off + N.of_nat k * chunkSize)%N ->
  List.concat (map (fun c => dec (payload c)) (chunk_writes (loop_calls H f p k off first)))
  = dropN off (bytes f).
Proof.
  intros Hdec. revert off first; induction k as [|k IH]; intros off first Hcov.
  - cbn. symmetry. apply dropN_all. lia.
  - cbn [loop_calls]. destruct first; cbn [chunk_writes filter is_chunk_write map payload List.concat];
      rewrite Hdec, IH by lia; rewrite slice_chunk, dropN_add; apply takeN_dropN.
Qed.

Lemma dropN_0 l : dropN 0 l = l.
Proof. destruct l; reflexivity. Qed.

(** ** Claims *)

(** C1: a non-empty file of size [S] written by [saveFileChunked] (chunk size
    1 MiB) is sent in exactly [ceil(S / 1 MiB)] chunk-write calls: the first
    a [writeFile] with [recursive: true], the others [appendFile]s, the
    [i]-th carrying the base64 of bytes [[i*C, i*C + C)]; decoding the
    payloads in call order and concatenating gives back the file. *)
Theorem saveFileChunked_chunk_order (H : host) (f : File) (p : string)
    (dec : string -> list Byte.byte) (t t' : list call) :
  (forall bs, dec (blobToBase64 H bs) = bs) ->
  (0 < file_size f)%N ->
  saveFileChunked H f p t = (t', inr tt) ->
  exists new,
    t' = t ++ new /\
    List.length (chunk_writes new) = N.to_nat (ceil_div (file_size f) chunkSize) /\
    (exists d rest, chunk_writes new = CWriteFile p d Data true :: rest /\
                    Forall (fun c => exists d', c = CAppendFile p d' Data) rest) /\
    (forall i, (i < List.length (chunk_writes new))%nat ->
       nth_error (map payload (chunk_writes new)) i
       = Some (blobToBase64 H (slice (bytes f) (N.of_nat i * chunkSize)
                                     (N.of_nat i * chunkSize + chunkSize)))) /\
    List.concat (map (fun c => dec (payload c)) (chunk_writes new)) = bytes f.
Proof.
  intros Hdec Hpos Hrun. apply saveFileChunked_run in Hrun.
  exists (loop_calls H f p (N.to_nat (ceil_div (file_size f) chunkSize)) 0 true).
  split; [exact Hrun|]. rewrite loop_calls_writes_length.
  split; [reflexivity|]. split; [|split].
  - assert (Hk : (0 < ceil_div (file_size f) chunkSize)%N)
      by (rewrite ceil_div_pos by (pose proof chunkSize_pos; lia);
          generalize ((file_size f - 1) / chunkSize)%N; intros; lia).
    destruct (N.to_nat (ceil_div (file_size f) chunkSize)) as [|k] eqn:E; [lia|].
    cbn. eexists _, _. split; [reflexivity|]. apply loop_calls_appends.
  - intros i Hi. rewrite loop_calls_nth by exact Hi. rewrite N.add_0_l. reflexivity.
  - rewrite loop_calls_concat by
      (try exact Hdec; rewrite N2Nat.id, N.add_0_l;
       apply (ceil_div_cover (file_size f) chunkSize chunkSize_pos)).
    apply dropN_0.
Qed.

(** ** Shape of the chunked-write trace *)

Lemma chunk_loop_shape H f p : forall fuel off first t,
  exists new, fst (chunk_loop H f p fuel off first t) = t ++ new /\ chunk_trace new /\
              Forall (fun c => call_path c = None \/ call_path c = Some p) new /\
              (new = [] -> snd (chunk_loop H f p fuel off first t) = inr tt \/
                            exists e, snd (chunk_loop H f p fuel off first t) = inl e /\
                                      (off < file_size f)%N /\
                                      readerError H t (slice (bytes f) off (off + chunkSize)) = Some e).
Proof.
  induction fuel as [|fuel IH]; intros off first t.
  - exists ([]). rewrite app_nil_r. split; [reflexivity|]. split; [constructor|].
      split; [constructor|]. intros _. now left.
  - cbn [chunk_loop]. destruct (N.ltb_spec off (file_size f)) as [Hlt|Hge].
    + rewrite bind_read. destruct (readerError H t _) as [e|] eqn:Er.
      { exists ([]). rewrite app_nil_r. split; [reflexivity|]. split; [constructor|].
        split; [constructor|]. intros _. right. exists e. auto. }
      set (w := if first
                then CWriteFile p (blobToBase64 H (slice (bytes f) off (off + chunkSize))) Data true
                else CAppendFile p (blobToBase64 H (slice (bytes f) off (off + chunkSize))) Data).
      assert (Hw : is_chunk_write w = true) by (subst w; destruct first; reflexivity).
      assert (Hp : call_path w = Some p) by (subst w; destruct first; reflexivity).
      assert (Hrun : bind (if first
                           then invoke_unit H (CWriteFile p (blobToBase64 H (slice (bytes f) off (off + chunkSize))) Data true)
                           else invoke_unit H (CAppendFile p (blobToBase64 H (slice (bytes f) off (off + chunkSize))) Data))
                          (fun _ => bind (emit CYield) (fun _ => chunk_loop H f p fuel (off + chunkSize) false)) t
                     = bind (invoke_unit H w)
                          (fun _ => bind (emit CYield) (fun _ => chunk_loop H f p fuel (off + chunkSize) false)) t)
        by (subst w; destruct first; reflexivity).
      rewrite Hrun, bind_invoke_unit. clear Hrun.
      destruct (bridge H t w).
      1-4: rewrite bind_emit;
           destruct (IH (off + chunkSize)%N false ((t ++ [w]) ++ [CYield])) as (new & E & Ct & Fp & _);
           exists (w :: CYield :: new); rewrite E, <- !app_assoc;
           (split; [reflexivity|]); (split; [constructor; assumption|]);
           (split; [| discriminate]);
           (constructor; [right; exact Hp | constructor; [left; reflexivity | exact Fp]]).
      exists ([w]). (split; [reflexivity|]); (split; [constructor; assumption|]).
      split; [constructor; [right; exact Hp | constructor] | discriminate].
    + exists ([]). rewrite app_nil_r. split; [reflexivity|]. split; [constructor|].
      split; [constructor|]. intros _. now left.
Qed.

Definition no_chunk_write (l : list call) : Prop := Forall (fun c => is_chunk_write c = false) l.

Lemma chunk_trace_yields l e :
  chunk_trace l -> no_chunk_write e ->
  forall pre c1 mid c2 post,
    l ++ e = pre ++ c1 :: mid ++ c2 :: post ->
    is_chunk_write c1 = true -> is_chunk_write c2 = true -> In CYield mid.
Proof.
  unfold no_chunk_write. intros Ct He. induction Ct as [|w Hw|w l Hw Ct IH];
    intros pre c1 mid c2 post E H1 H2; cbn in E.
  - subst e. rewrite Forall_app in He. destruct He as [_ He].
    inversion He; subst. congruence.
  - destruct pre as [|x pre]; cbn in E; injection E as <- E.
    + subst e. rewrite Forall_app in He. destruct He as [_ He]. inversion He; congruence.
    + subst e. rewrite Forall_app in He. destruct He as [_ He]. inversion He; congruence.
  - destruct pre as [|x [|y pre]]; cbn in E; inversion E; subst.
    + destruct mid as [|m mid]; cbn in *; inversion H3; subst; [discriminate | now left].
    + cbn in H1; discriminate.
    + eapply IH; eassumption.
Qed.

(** ** The three branches of [saveFile] *)

Lemma saveFile_web H f now rnd t :
  isNativePlatform H = false ->
  saveFile H f now rnd t
  = (t ++ [CCreateObjectURL], inr {| uri := objectURL H t; size := file_size f; mimeType := type f |}).
Proof. intros Hn. unfold saveFile. rewrite Hn. reflexivity. Qed.

Lemma saveFile_copy_unfold H f now rnd t src :
  isNativePlatform H = true -> sourceUri f = Some src -> src <> EmptyString ->
  saveFile H f now rnd t =
  bind (catch_ (invoke_unit H (CCopy src (savePath f now rnd) Data (Some External)))
               (fun _ => invoke_unit H (CCopy src (savePath f now rnd) Data None)))
       (fun _ => bind (invoke_str H (CGetUri (savePath f now rnd) Data))
                      (fun result => ret {| uri := result; size := file_size f; mimeType := type f |})) t.
Proof.
  intros Hn Hs Hne. unfold saveFile. rewrite Hn. cbn [negb]. rewrite catch_rethrow, Hs.
  cbv beta iota zeta delta [truthy].
  destruct (String.eqb_spec src EmptyString); [contradiction|]. reflexivity.
Qed.

Lemma saveFile_chunked_unfold H f now rnd t :
  isNativePlatform H = true -> truthy (sourceUri f) = false ->
  saveFile H f now rnd t =
  bind (saveFileChunked H f (savePath f now rnd))
       (fun _ => bind (invoke_str H (CGetUri (savePath f now rnd) Data))
                      (fun result => ret {| uri := result; size := file_size f; mimeType := type f |})) t.
Proof.
  intros Hn Hs. unfold saveFile. rewrite Hn. cbn [negb]. rewrite catch_rethrow.
  destruct (sourceUri f) as [src|]; [|reflexivity].
  cbv beta iota zeta. rewrite Hs. reflexivity.
Qed.

Lemma bind_getUri_trace H p (k : string -> M SaveFileResult) t :
  (forall s t1, fst (k s t1) = t1) ->
  fst (bind (invoke_str H (CGetUri p Data)) k t) = t ++ [CGetUri p Data].
Proof.
  intros Hk. unfold bind, invoke_str, invoke, ret, throw. cbn.
  destruct (bridge H t (CGetUri p Data)); cbn; try reflexivity. apply Hk.
Qed.

Lemma bind_catch_retry {B} H c1 c2 (k : unit -> M B) t :
  bind (catch_ (invoke_unit H c1) (fun _ => invoke_unit H c2)) k t =
  match bridge H t c1 with
  | RErr _ => match bridge H (t ++ [c1]) c2 with
              | RErr e => ((t ++ [c1]) ++ [c2], inl e)
              | _ => k tt ((t ++ [c1]) ++ [c2])
              end
  | _ => k tt (t ++ [c1])
  end.
Proof.
  unfold bind, catch_, invoke_unit, invoke, ret; cbn.
  destruct (bridge H t c1); try reflexivity.
  destruct (bridge H (t ++ [c1]) c2); reflexivity.
Qed.

Lemma saveFile_copy_trace H f now rnd t src :
  isNativePlatform H = true -> sourceUri f = Some src -> src <> EmptyString ->
  exists rest,
    fst (saveFile H f now rnd t) = t ++ CCopy src (savePath f now rnd) Data (Some External) :: rest /\
    (rest = [CGetUri (savePath f now rnd) Data] \/ rest = [CCopy src (savePath f now rnd) Data None] \/
     rest = [CCopy src (savePath f now rnd) Data None; CGetUri (savePath f now rnd) Data]).
Proof.
  intros Hn Hs Hne. rewrite (saveFile_copy_unfold H f now rnd t src Hn Hs Hne), bind_catch_retry.
  destruct (bridge H t _).
  1-4: eexists; split; [rewrite bind_getUri_trace by reflexivity; now rewrite <- app_assoc | now left].
  destruct (bridge H (t ++ _) _).
  1-4: eexists; split; [rewrite bind_getUri_trace by reflexivity; now rewrite <- !app_assoc
                       | right; now right].
  eexists; split; [cbn; now rewrite <- app_assoc | right; now left].
Qed.

Lemma bind_invoke_str_ok {B} H c s (k : string -> M B) t :
  bridge H t c = RStr s -> bind (invoke_str H c) k t = k s (t ++ [c]).
Proof. intros E. unfold bind, invoke_str, invoke, ret. cbn. rewrite E. reflexivity. Qed.

Lemma saveFile_chunked_trace H f now rnd t :
  isNativePlatform H = true -> truthy (sourceUri f) = false ->
  exists new rest,
    fst (saveFile H f now rnd t) = t ++ new ++ rest /\ chunk_trace new /\
    Forall (fun c => call_path c = None \/ call_path c = Some (savePath f now rnd)) new /\
    (rest = [] \/ rest = [CGetUri (savePath f now rnd) Data]) /\
    (new = [] -> rest = [CGetUri (savePath f now rnd) Data] \/
                 (rest = [] /\ exists e, snd (saveFile H f now rnd t) = inl e /\
                                         (0 < file_size f)%N /\
                                         readerError H t (slice (bytes f) 0 (0 + chunkSize)) = Some e)).
Proof.
  intros Hn Hs. rewrite saveFile_chunked_unfold by assumption. unfold saveFileChunked.
  destruct (chunk_loop_shape H f (savePath f now rnd) (S (List.length (bytes f))) 0 true t)
    as (new & E & Ct & Fp & Hnil).
  unfold bind at 1.
  destruct (chunk_loop H f (savePath f now rnd) (S (List.length (bytes f))) 0 true t)
    as [t1 [e|[]]] eqn:Ec; cbn [fst snd] in E, Hnil.
  - exists new, []. rewrite app_nil_r. split; [exact E|]. split; [exact Ct|]. split; [exact Fp|].
    split; [now left|]. intros ->. right. split; [reflexivity|].
    destruct (Hnil eq_refl) as [Hc | (e' & He' & Hlt & Hr)]; [discriminate|].
    injection He' as <-. exists e. split; [|auto]. unfold bind. rewrite Ec. reflexivity.
  - exists new, [CGetUri (savePath f now rnd) Data].
    rewrite bind_getUri_trace by reflexivity. subst t1. rewrite app_assoc.
    split; [reflexivity|]. split; [exact Ct|]. split; [exact Fp|]. split; [now right|]. intros _. now left.
Qed.

Lemma chunk_write_fs c : is_chunk_write c = true -> is_native_fs_call c = true.
Proof. destruct c; cbn; congruence. Qed.

Lemma chunk_trace_fs l :
  chunk_trace l -> Forall (fun c => is_native_fs_call c = true \/ c = CYield) l.
Proof.
  induction 1 as [|w Hw|w l Hw _ IH].
  - constructor.
  - constructor; [left; now apply chunk_write_fs | constructor].
  - constructor; [left; now apply chunk_write_fs | constructor; [now right | exact IH]].
Qed.

Lemma chunk_trace_head w l : chunk_trace (w :: l) -> is_chunk_write w = true.
Proof. inversion 1; assumption. Qed.

Lemma truthy_some o : truthy o = true -> exists src, o = Some src /\ src <> EmptyString.
Proof.
  destruct o as [src|]; cbn; [|discriminate].
  destruct (String.eqb_spec src EmptyString); cbn; [discriminate|]. eauto.
Qed.

(** Every trace of [saveFile] is a chunked-write trace followed by calls that
    write no chunk. *)
Lemma saveFile_trace_form H f now rnd t :
  exists l e, fst (saveFile H f now rnd t) = t ++ l ++ e /\ chunk_trace l /\ no_chunk_write e.
Proof.
  unfold no_chunk_write.
  destruct (isNativePlatform H) eqn:Hn.
  - destruct (truthy (sourceUri f)) eqn:Hs.
    + destruct (truthy_some _ Hs) as (src & Hsrc & Hne).
      destruct (saveFile_copy_trace H f now rnd t src Hn Hsrc Hne) as (rest & E & Hr).
      exists [], (CCopy src (savePath f now rnd) Data (Some External) :: rest).
      split; [exact E|]. split; [constructor|].
      destruct Hr as [->|[->| ->]]; repeat constructor.
    + destruct (saveFile_chunked_trace H f now rnd t Hn Hs) as (new & rest & E & Ct & _ & Hr & _).
      exists new, rest. split; [exact E|]. split; [exact Ct|].
      destruct Hr as [->| ->]; repeat constructor.
  - exists [], [CCreateObjectURL]. rewrite saveFile_web by assumption.
    split; [reflexivity|]. split; repeat constructor.
Qed.

(** C2: [saveFile] picks its strategy from the native capability and the
    presence of a source locator only, for files of any size: without the
    capability it returns a fresh blob URL and touches no file system; with
    it and a source locator it starts with a native copy and writes no chunk;
    with it and no source locator it runs [saveFileChunked] then [getUri];
    with the capability, also below the 1 MiB threshold, it attempts the
    native save: every call it makes is a native file-system call (or a yield
    between chunks) and the first is a native file-system call, unless it
    makes no call at all, which happens only on the chunked path when reading
    the first chunk ([blobToBase64]) rejects, and then [saveFile] rejects
    with the reader's error. *)
Theorem saveFile_strategy (H : host) (f : File) (now : N) (rnd36 : string) (t : list call) :
  (isNativePlatform H = false ->
     saveFile H f now rnd36 t
     = (t ++ [CCreateObjectURL],
        inr {| uri := objectURL H t; size := file_size f; mimeType := type f |})) /\
  (isNativePlatform H = true -> forall src, sourceUri f = Some src -> src <> EmptyString ->
     exists rest,
       fst (saveFile H f now rnd36 t)
       = t ++ CCopy src (savePath f now rnd36) Data (Some External) :: rest /\
       chunk_writes rest = []) /\
  (isNativePlatform H = true -> truthy (sourceUri f) = false ->
     saveFile H f now rnd36 t
     = bind (saveFileChunked H f (savePath f now rnd36))
            (fun _ => bind (invoke_str H (CGetUri (savePath f now rnd36) Data))
                           (fun result => ret {| uri := result; size := file_size f;
                                                 mimeType := type f |})) t) /\
  (isNativePlatform H = true ->
     (exists c rest,
        fst (saveFile H f now rnd36 t) = t ++ c :: rest /\ is_native_fs_call c = true /\
        Forall (fun c' => is_native_fs_call c' = true \/ c' = CYield) (c :: rest)) \/
     (fst (saveFile H f now rnd36 t) = t /\ truthy (sourceUri f) = false /\ (0 < file_size f)%N /\
      exists e, snd (saveFile H f now rnd36 t) = inl e /\
                readerError H t (slice (bytes f) 0 (0 + chunkSize)) = Some e)).
Proof.
  split; [apply saveFile_web|]. split; [|split].
  - intros Hn src Hs Hne.
    destruct (saveFile_copy_trace H f now rnd36 t src Hn Hs Hne) as (rest & E & Hr).
    exists rest. split; [exact E|]. destruct Hr as [->|[->| ->]]; reflexivity.
  - intros Hn Hs. apply saveFile_chunked_unfold; assumption.
  - intros Hn. destruct (truthy (sourceUri f)) eqn:Hs.
    + destruct (truthy_some _ Hs) as (src & Hsrc & Hne).
      destruct (saveFile_copy_trace H f now rnd36 t src Hn Hsrc Hne) as (rest & E & Hr).
      left. exists (CCopy src (savePath f now rnd36) Data (Some External)), rest.
      split; [exact E|]. split; [reflexivity|].
      destruct Hr as [->|[->| ->]]; repeat (constructor; [left; reflexivity|]); constructor.
    + destruct (saveFile_chunked_trace H f now rnd36 t Hn Hs)
        as (new & rest & E & Ct & _ & Hr & Hnil).
      assert (Hall : Forall (fun c' => is_native_fs_call c' = true \/ c' = CYield) (new ++ rest)).
      { apply Forall_app. split; [now apply chunk_trace_fs|].
        destruct Hr as [->| ->]; repeat constructor. }
      destruct new as [|w new].
      * destruct (Hnil eq_refl) as [Er | (-> & e & He & Hlt & Hread)].
        -- rewrite Er in E, Hall. cbn in E, Hall. left.
           eexists _, []. split; [exact E|]. split; [reflexivity|exact Hall].
        -- right. cbn in E. rewrite app_nil_r in E. split; [exact E|].
           split; [reflexivity|]. split; [exact Hlt|]. exists e. auto.
      * left. exists w, (new ++ rest). split; [exact E|]. split; [|exact Hall].
        apply chunk_write_fs. eapply chunk_trace_head; eassumption.
Qed.

(** C3: when the first native copy (with [directory: External]) rejects,
    [saveFile] retries exactly once without the [directory] field; after the
    retry only [getUri] may follow (no chunked write); if the retry rejects
    too, its error is what [saveFile] rejects with. *)
Theorem saveFile_copy_single_retry (H : host) (f : File) (now : N) (rnd36 : string)
    (t : list call) (src e1 : string) :
  isNativePlatform H = true -> sourceUri f = Some src -> src <> EmptyString ->
  bridge H t (CCopy src (savePath f now rnd36) Data (Some External)) = RErr e1 ->
  (exists rest,
     fst (saveFile H f now rnd36 t)
     = t ++ [CCopy src (savePath f now rnd36) Data (Some External);
             CCopy src (savePath f now rnd36) Data None] ++ rest /\
     (rest = [] \/ rest = [CGetUri (savePath f now rnd36) Data])) /\
  (forall e2,
     bridge H (t ++ [CCopy src (savePath f now rnd36) Data (Some External)])
              (CCopy src (savePath f now rnd36) Data None) = RErr e2 ->
     saveFile H f now rnd36 t
     = (t ++ [CCopy src (savePath f now rnd36) Data (Some External);
              CCopy src (savePath f now rnd36) Data None], inl e2)).
Proof.
  intros Hn Hs Hne E1.
  rewrite (saveFile_copy_unfold H f now rnd36 t src Hn Hs Hne), bind_catch_retry, E1.
  split.
  - destruct (bridge H (t ++ _) _).
    1-4: eexists; split; [rewrite bind_getUri_trace by reflexivity; now rewrite <- !app_assoc
                         | now right].
    exists []. split; [cbn; now rewrite <- !app_assoc | now left].
  - intros e2 E2. rewrite E2. now rewrite <- app_assoc.
Qed.

(** C7: in the trace of one [saveFile] call, between any two chunk-write
    calls there is a yield to the event loop. *)
Theorem saveFile_yield_between_chunks (H : host) (f : File) (now : N) (rnd36 : string)
    (t : list call) :
  forall pre c1 mid c2 post,
    fst (saveFile H f now rnd36 t) = t ++ pre ++ c1 :: mid ++ c2 :: post ->
    is_chunk_write c1 = true -> is_chunk_write c2 = true -> In CYield mid.
Proof.
  intros pre c1 mid c2 post E H1 H2.
  destruct (saveFile_trace_form H f now rnd36 t) as (l & e & E' & Ct & He).
  rewrite E' in E. apply app_inv_head in E.
  eapply chunk_trace_yields; eassumption.
Qed.

(** C10: with the capability, no source locator and an empty file, no
    [writeFile] or [appendFile] is issued; [saveFile] still calls [getUri] on
    the computed path and resolves with size 0. *)
Theorem saveFile_empty_file (H : host) (f : File) (now : N) (rnd36 : string)
    (t : list call) (u : string) :
  isNativePlatform H = true -> truthy (sourceUri f) = false -> bytes f = [] ->
  bridge H t (CGetUri (savePath f now rnd36) Data) = RStr u ->
  saveFile H f now rnd36 t
  = (t ++ [CGetUri (savePath f now rnd36) Data],
     inr {| uri := u; size := 0; mimeType := type f |}).
Proof.
  intros Hn Hs Hb Hu. rewrite saveFile_chunked_unfold by assumption.
  unfold saveFileChunked, chunk_loop, file_size. rewrite Hb.
  change ((0 <? N.of_nat (List.length (@nil Byte.byte)))%N) with false. cbv iota.
  rewrite bind_ret, (bind_invoke_str_ok _ _ _ _ _ Hu). reflexivity.
Qed.

(** C8: [shouldUseNativeStorage fileSize] holds exactly when the platform is
    native and [fileSize >= 1 MiB]. *)
Theorem shouldUseNativeStorage_spec (H : host) (fileSize : Z) :
  shouldUseNativeStorage H fileSize = true <->
  isNativePlatform H = true /\ (1 * 1024 * 1024 <= fileSize)%Z.
Proof.
  unfold shouldUseNativeStorage, FILE_SIZE_THRESHOLD.
  rewrite andb_true_iff, Z.leb_le. reflexivity.
Qed.

(** C9: without the capability, [convertFileSrc] returns its argument; it is
    a pure function, so it performs no call. *)
Theorem convertFileSrc_identity (H : host) :
  isNativePlatform H = false -> forall x, convertFileSrc H x = x.
Proof. intros Hn x. unfold convertFileSrc. now rewrite Hn. Qed.

(** ** Deletion *)

Lemma deleteFile_ok H u t : snd (deleteFile H u t) = inr tt.
Proof.
  unfold deleteFile. destruct (isNativePlatform H); cbn [negb].
  - unfold catch_. destruct (match_managed u) as [m|]; [|reflexivity].
    unfold invoke_unit, bind, invoke, ret. cbn. destruct (bridge H t _); reflexivity.
  - destruct (prefix "blob:" u); reflexivity.
Qed.

(** C6: [deleteFile] never rejects, also when called a second time on the
    same URI; in native mode a URI outside [aurora-files/] leaves the trace
    untouched, and in non-native mode no [Filesystem.deleteFile] is ever
    issued. *)
Theorem deleteFile_never_rejects (H : host) (u : string) (t : list call) :
  snd (deleteFile H u t) = inr tt /\
  snd (bind (deleteFile H u) (fun _ => deleteFile H u) t) = inr tt /\
  (isNativePlatform H = true -> match_managed u = None -> deleteFile H u t = (t, inr tt)) /\
  (isNativePlatform H = false ->
     exists new, fst (deleteFile H u t) = t ++ new /\ Forall (fun c => is_delete c = false) new).
Proof.
  split; [apply deleteFile_ok|]. split; [|split].
  - pose proof (deleteFile_ok H u t) as E. unfold bind.
    destruct (deleteFile H u t) as [t1 r]. cbn in E. subst r. apply deleteFile_ok.
  - intros Hn Hm. unfold deleteFile. rewrite Hn, Hm. reflexivity.
  - intros Hn. unfold deleteFile. rewrite Hn. cbn [negb].
    destruct (prefix "blob:" u).
    + exists [CRevokeObjectURL u]. split; [reflexivity|]. repeat constructor.
    + exists []. split; [symmetry; apply app_nil_r | constructor].
Qed.

(** ** Statistics *)

(** C4 (as the code behaves): one listed video whose [stat] fails still
    counts.  Two videos are listed, the second fails to stat and the other
    category directories are missing: [getNativeStorageStats] resolves to
    count 2 and size 5, while [getNativeStorageFiles] on the same tree
    returns only the one entry that could be stat'ed. *)
Theorem getNativeStorageStats_counts_unstatable_entry :
  snd (getNativeStorageStats (mk_host true scan_bridge) []) = inr (2%N, 5%N) /\
  snd (getNativeStorageFiles (mk_host true scan_bridge) [])
  = inr [{| entry_name := "1_aaaaaa.mp4"; entry_path := "aurora-files/videos/1_aaaaaa.mp4";
            entry_category := "videos"; entry_size := 5 |}].
Proof. split; vm_compute; reflexivity. Qed.

(** ** File names and categories *)

Lemma split_dot_nonempty s : split_dot s <> [].
Proof.
  destruct s as [|c s]; cbn; [discriminate|].
  destruct (Ascii.eqb c dot); [discriminate|]. destruct (split_dot s); discriminate.
Qed.

Lemma last_cons_nonempty (a : string) l d : l <> [] -> last (a :: l) d = last l d.
Proof. destruct l; [contradiction | reflexivity]. Qed.

Lemma split_dot_no_dot s : ~ In dot (list_ascii_of_string s) -> split_dot s = [s].
Proof.
  induction s as [|c s IH]; intros Hn; [reflexivity|].
  cbn in Hn |- *. rewrite IH by tauto.
  destruct (Ascii.eqb_spec c dot); [subst; tauto | reflexivity].
Qed.

Lemma split_dot_after_dot pre suf :
  pop (split_dot (pre ++ String dot suf)) = pop (split_dot suf) /\
  (2 <= List.length (split_dot (pre ++ String dot suf)))%nat.
Proof.
  unfold pop. induction pre as [|c pre [IHl IHn]]; cbn [split_dot String.append].
  - rewrite Ascii.eqb_refl, last_cons_nonempty by apply split_dot_nonempty.
    split; [reflexivity|]. pose proof (split_dot_nonempty suf).
    destruct (split_dot suf); [contradiction | cbn; lia].
  - destruct (Ascii.eqb c dot).
    + rewrite last_cons_nonempty by (intros E; rewrite E in IHn; cbn in IHn; lia).
      split; [exact IHl | cbn; lia].
    + destruct (split_dot (pre ++ String dot suf)) as [|seg [|x rest]]; cbn [List.length] in IHn;
        try lia.
      rewrite last_cons_nonempty in IHl |- * by discriminate.
      split; [exact IHl | cbn; lia].
Qed.

Lemma fileExtension_last_dot pre suf :
  ~ In dot (list_ascii_of_string suf) ->
  fileExtension (pre ++ "." ++ suf) = if String.eqb suf "" then "bin" else suf.
Proof.
  intros Hn. unfold fileExtension.
  change ("." ++ suf)%string with (String dot suf).
  rewrite (proj1 (split_dot_after_dot pre suf)), split_dot_no_dot by exact Hn.
  reflexivity.
Qed.

Lemma getCategory_cases m :
  (prefix "video/" m = true /\ getCategory m = "videos") \/
  (prefix "video/" m = false /\ prefix "audio/" m = true /\ getCategory m = "audio") \/
  (prefix "video/" m = false /\ prefix "audio/" m = false /\ prefix "image/" m = true /\
   getCategory m = "images") \/
  (prefix "video/" m = false /\ prefix "audio/" m = false /\ prefix "image/" m = false /\
   getCategory m = "documents").
Proof.
  unfold getCategory.
  destruct (prefix "video/" m), (prefix "audio/" m), (prefix "image/" m); tauto.
Qed.

Lemma substring_length_le n m s : (String.length (substring n m s) <= m)%nat.
Proof.
  revert n m; induction s as [|c s IH]; intros n m; destruct n, m; cbn; try lia.
  - specialize (IH 0%nat m). lia.
  - apply IH.
  - apply IH.
Qed.

Lemma saveFile_native_paths H f now rnd t :
  isNativePlatform H = true ->
  exists new, fst (saveFile H f now rnd t) = t ++ new /\
              Forall (fun c => call_path c = None \/ call_path c = Some (savePath f now rnd)) new.
Proof.
  intros Hn. destruct (truthy (sourceUri f)) eqn:Hs.
  - destruct (truthy_some _ Hs) as (src & Hsrc & Hne).
    destruct (saveFile_copy_trace H f now rnd t src Hn Hsrc Hne) as (rest & E & Hr).
    eexists. split; [exact E|].
    destruct Hr as [->|[->| ->]]; repeat (constructor; [right; reflexivity|]); constructor.
  - destruct (saveFile_chunked_trace H f now rnd t Hn Hs) as (new & rest & E & _ & Fp & Hr & _).
    exists (new ++ rest). split; [exact E|]. apply Forall_app. split; [exact Fp|].
    destruct Hr as [->| ->]; [constructor | constructor; [now right | constructor]].
Qed.

(** C5 (amended): a native save works on one path, used by every copy,
    write, append and [getUri] call it makes:
    [aurora-files/<category>/<timestamp>_<random>.<ext>], where the category
    follows the MIME prefix, the timestamp is [Date.now()] in decimal, the
    random part is characters 2 to 7 of [Math.random().toString(36)] (at most
    six of them), and, for a name with a dot, [ext] is the text after its
    last dot, or ["bin"] when that text is empty. *)
Theorem saveFile_destination_path (H : host) (f : File) (now : N) (rnd36 : string)
    (t : list call) :
  isNativePlatform H = true ->
  (exists new, fst (saveFile H f now rnd36 t) = t ++ new /\
     Forall (fun c => call_path c = None \/ call_path c = Some (savePath f now rnd36)) new) /\
  savePath f now rnd36
  = ("aurora-files/" ++ getCategory (type f) ++ "/" ++ show_N now ++ "_" ++
     js_substring rnd36 2 8 ++ "." ++ fileExtension (name f))%string /\
  ((prefix "video/" (type f) = true /\ getCategory (type f) = "videos") \/
   (prefix "video/" (type f) = false /\ prefix "audio/" (type f) = true /\
    getCategory (type f) = "audio") \/
   (prefix "video/" (type f) = false /\ prefix "audio/" (type f) = false /\
    prefix "image/" (type f) = true /\ getCategory (type f) = "images") \/
   (prefix "video/" (type f) = false /\ prefix "audio/" (type f) = false /\
    prefix "image/" (type f) = false /\ getCategory (type f) = "documents")) /\
  (String.length (js_substring rnd36 2 8) <= 6)%nat /\
  (forall pre suf, name f = (pre ++ "." ++ suf)%string -> ~ In dot (list_ascii_of_string suf) ->
     fileExtension (name f) = if String.eqb suf "" then "bin" else suf).
Proof.
  intros Hn. split; [now apply saveFile_native_paths|].
  split; [reflexivity|]. split; [apply getCategory_cases|]. split.
  - apply substring_length_le.
  - intros pre suf E Hd. rewrite E. now apply fileExtension_last_dot.
Qed.

(** C5 as stated fails: [Math.random()] may return [0], whose base-36 text
    is ["0"]; the save of [clip.mp4] then succeeds on
    [aurora-files/videos/1700000000000_.mp4], whose random part is empty and
    which the pattern of the spec does not match. *)
Lemma saveFile_path_short_random :
  saveFile native_ok_host (sample_file "clip.mp4" "video/mp4" [Byte.x01]) 1700000000000 "0" []
  = ([CWriteFile "aurora-files/videos/1700000000000_.mp4" (string_of_list_byte [Byte.x01]) Data true;
      CYield; CGetUri "aurora-files/videos/1700000000000_.mp4" Data],
     inr {| uri := "file:///data/user/0/app/files/aurora-files/videos/1700000000000_.mp4";
            size := 1; mimeType := "video/mp4" |}) /\
  String.length (js_substring "0" 2 8) = 0%nat /\
  p2_path_shape "aurora-files/videos/1700000000000_.mp4" = false.
Proof. split; [|split]; vm_compute; reflexivity. Qed.

(** ** The statements exercised on concrete inputs *)

Lemma saveFileChunked_chunk_order_witness :
  (forall bs, list_byte_of_string (blobToBase64 native_ok_host bs) = bs) /\
  (0 < file_size big_file)%N /\
  saveFileChunked native_ok_host big_file "p" [] = ([] ++ (loop_calls native_ok_host big_file "p" (N.to_nat (ceil_div (file_size big_file) chunkSize)) 0 true), inr tt) /\
  N.to_nat (ceil_div (file_size big_file) chunkSize) = 2%nat /\
  exists new,
    [] ++ (loop_calls native_ok_host big_file "p" (N.to_nat (ceil_div (file_size big_file) chunkSize)) 0 true) = [] ++ new /\
    List.length (chunk_writes new) = N.to_nat (ceil_div (file_size big_file) chunkSize) /\
    (exists d rest, chunk_writes new = CWriteFile "p" d Data true :: rest /\
                    Forall (fun c => exists d', c = CAppendFile "p" d' Data) rest) /\
    (forall i, (i < List.length (chunk_writes new))%nat ->
       nth_error (map payload (chunk_writes new)) i
       = Some (blobToBase64 native_ok_host (slice (bytes big_file) (N.of_nat i * chunkSize)
                                                 (N.of_nat i * chunkSize + chunkSize)))) /\
    List.concat (map (fun c => list_byte_of_string (payload c)) (chunk_writes new)) = bytes big_file.
Proof.
  assert (Hdec : forall bs, list_byte_of_string (blobToBase64 native_ok_host bs) = bs)
    by (intros bs; apply list_byte_of_string_of_list_byte).
  assert (Hpos : (0 < file_size big_file)%N) by (rewrite big_file_size; reflexivity).
  assert (Hrun : saveFileChunked native_ok_host big_file "p" [] = ([] ++ (loop_calls native_ok_host big_file "p" (N.to_nat (ceil_div (file_size big_file) chunkSize)) 0 true), inr tt))
    by (apply saveFileChunked_ok; [reflexivity | apply native_ok_host_writes]).
  split; [exact Hdec|]. split; [exact Hpos|]. split; [exact Hrun|].
  split; [rewrite big_file_size; vm_compute; reflexivity|].
  exact (saveFileChunked_chunk_order native_ok_host big_file "p" list_byte_of_string []
           ([] ++ (loop_calls native_ok_host big_file "p" (N.to_nat (ceil_div (file_size big_file) chunkSize)) 0 true)) Hdec Hpos Hrun).
Defined.

Lemma saveFile_strategy_witness :
  saveFile web_host clip_file 1 "0.abcdefgh" []
  = ([] ++ [CCreateObjectURL],
     inr {| uri := objectURL web_host []; size := file_size clip_file; mimeType := type clip_file |}) /\
  (exists rest,
     fst (saveFile native_ok_host picked_file 1 "0.abcdefgh" [])
     = [] ++ CCopy "content://media/external/video/42" (savePath picked_file 1 "0.abcdefgh")
                   Data (Some External) :: rest /\
     chunk_writes rest = []) /\
  ((exists c rest,
      fst (saveFile native_ok_host empty_file 1 "0.abcdefgh" []) = [] ++ c :: rest /\
      is_native_fs_call c = true /\
      Forall (fun c' => is_native_fs_call c' = true \/ c' = CYield) (c :: rest)) \/
   (fst (saveFile native_ok_host empty_file 1 "0.abcdefgh" []) = [] /\
    truthy (sourceUri empty_file) = false /\ (0 < file_size empty_file)%N /\
    exists e, snd (saveFile native_ok_host empty_file 1 "0.abcdefgh" []) = inl e /\
              readerError native_ok_host [] (slice (bytes empty_file) 0 (0 + chunkSize)) = Some e)) /\
  fst (saveFile reader_fail_host clip_file 1 "0.abcdefgh" []) = [] /\
  ((exists c rest,
      fst (saveFile reader_fail_host clip_file 1 "0.abcdefgh" []) = [] ++ c :: rest /\
      is_native_fs_call c = true /\
      Forall (fun c' => is_native_fs_call c' = true \/ c' = CYield) (c :: rest)) \/
   (fst (saveFile reader_fail_host clip_file 1 "0.abcdefgh" []) = [] /\
    truthy (sourceUri clip_file) = false /\ (0 < file_size clip_file)%N /\
    exists e, snd (saveFile reader_fail_host clip_file 1 "0.abcdefgh" []) = inl e /\
              readerError reader_fail_host [] (slice (bytes clip_file) 0 (0 + chunkSize)) = Some e)).
Proof.
  split; [|split; [|split; [|split]]].
  - apply (proj1 (saveFile_strategy web_host clip_file 1 "0.abcdefgh" [])). reflexivity.
  - apply (proj1 (proj2 (saveFile_strategy native_ok_host picked_file 1 "0.abcdefgh" [])));
      [reflexivity | reflexivity | discriminate].
  - apply (proj2 (proj2 (proj2 (saveFile_strategy native_ok_host empty_file 1 "0.abcdefgh" []))));
      reflexivity.
  - vm_compute. reflexivity.
  - apply (proj2 (proj2 (proj2 (saveFile_strategy reader_fail_host clip_file 1 "0.abcdefgh" []))));
      reflexivity.
Defined.

Lemma saveFile_copy_single_retry_witness :
  isNativePlatform (mk_host true copy_fail_bridge) = true /\
  sourceUri picked_file = Some "content://media/external/video/42" /\
  bridge (mk_host true copy_fail_bridge) []
         (CCopy "content://media/external/video/42" (savePath picked_file 1 "0.abcdefgh")
                Data (Some External)) = RErr "copy failed" /\
  saveFile (mk_host true copy_fail_bridge) picked_file 1 "0.abcdefgh" []
  = ([] ++ [CCopy "content://media/external/video/42" (savePath picked_file 1 "0.abcdefgh")
                  Data (Some External);
            CCopy "content://media/external/video/42" (savePath picked_file 1 "0.abcdefgh")
                  Data None], inl "copy failed (retry)").
Proof.
  split; [reflexivity|]. split; [reflexivity|]. split; [reflexivity|].
  apply (proj2 (saveFile_copy_single_retry (mk_host true copy_fail_bridge) picked_file 1
                  "0.abcdefgh" [] "content://media/external/video/42" "copy failed"
                  eq_refl eq_refl ltac:(discriminate) eq_refl)).
  reflexivity.
Defined.

Lemma saveFile_yield_between_chunks_witness :
  fst (saveFile native_const_b64_host big_file 1 "0.abcdefgh" [])
  = [] ++ [] ++ CWriteFile "aurora-files/documents/1_abcdef.bin" "AAAA" Data true
          :: [CYield] ++ CAppendFile "aurora-files/documents/1_abcdef.bin" "AAAA" Data
          :: [CYield; CGetUri "aurora-files/documents/1_abcdef.bin" Data] /\
  In CYield [CYield].
Proof.
  split; [vm_compute; reflexivity|].
  apply (saveFile_yield_between_chunks native_const_b64_host big_file 1 "0.abcdefgh" []
           [] (CWriteFile "aurora-files/documents/1_abcdef.bin" "AAAA" Data true) [CYield]
           (CAppendFile "aurora-files/documents/1_abcdef.bin" "AAAA" Data)
           [CYield; CGetUri "aurora-files/documents/1_abcdef.bin" Data]).
  - vm_compute. reflexivity.
  - reflexivity.
  - reflexivity.
Defined.

Lemma saveFile_empty_file_witness :
  isNativePlatform native_ok_host = true /\ truthy (sourceUri empty_file) = false /\
  bytes empty_file = [] /\
  saveFile native_ok_host empty_file 1 "0.abcdefgh" []
  = ([] ++ [CGetUri "aurora-files/documents/1_abcdef.txt" Data],
     inr {| uri := "file:///data/user/0/app/files/aurora-files/documents/1_abcdef.txt";
            size := 0; mimeType := "text/plain" |}).
Proof.
  split; [reflexivity|]. split; [reflexivity|]. split; [reflexivity|].
  apply (saveFile_empty_file native_ok_host empty_file 1 "0.abcdefgh" []
           "file:///data/user/0/app/files/aurora-files/documents/1_abcdef.txt");
    vm_compute; reflexivity.
Defined.

Lemma convertFileSrc_identity_witness :
  isNativePlatform web_host = false /\ convertFileSrc web_host "blob:http://localhost/7" = "blob:http://localhost/7".
Proof. split; [reflexivity|]. apply (convertFileSrc_identity web_host); reflexivity. Defined.

Lemma saveFile_destination_path_witness :
  isNativePlatform native_ok_host = true /\ fileExtension (name clip_file) = "mp4".
Proof.
  split; [reflexivity|].
  apply (proj2 (proj2 (proj2 (proj2 (saveFile_destination_path native_ok_host clip_file 1
                                        "0.abcdefgh" [] eq_refl)))) "clip" "mp4").
  - reflexivity.
  - cbn. intros [E|[E|[E|[]]]]; discriminate.
Defined.

Lemma deleteFile_never_rejects_witness :
  deleteFile native_ok_host "file:///sdcard/Download/x.mp4" [] = ([], inr tt) /\
  snd (bind (deleteFile (mk_host true delete_bridge) "file:///data/aurora-files/videos/1_aaaaaa.mp4")
            (fun _ => deleteFile (mk_host true delete_bridge) "file:///data/aurora-files/videos/1_aaaaaa.mp4") [])
  = inr tt.
Proof.
  split.
  - apply (proj1 (proj2 (proj2 (deleteFile_never_rejects native_ok_host
                                  "file:///sdcard/Download/x.mp4" [])))); reflexivity.
  - apply (proj1 (proj2 (deleteFile_never_rejects (mk_host true delete_bridge)
                           "file:///data/aurora-files/videos/1_aaaaaa.mp4" []))).
Defined.

(** ** Storage scans *)

Lemma catch_stat {A} H c (g : N -> A) (d : A) t :
  catch_ (bind (invoke_size H c) (fun st => ret (g st))) (fun _ => ret d) t
  = (t ++ [c], inr (match bridge H t c with RSize n => g n | _ => d end)).
Proof.
  unfold catch_, bind, invoke_size, invoke, ret, throw. cbn. destruct (bridge H t c); reflexivity.
Qed.

Lemma catch_readdir {A} H c (k : list string -> M A) (h : M A) t :
  catch_ (bind (invoke_files H c) k) (fun _ => h) t
  = match bridge H t c with
    | RFiles l => catch_ (k l) (fun _ => h) (t ++ [c])
    | _ => h (t ++ [c])
    end.
Proof.
  unfold catch_ at 1, bind at 1, invoke_files. unfold bind at 1, invoke, ret, throw. cbn.
  destruct (bridge H t c); reflexivity.
Qed.

Lemma bind_step {A B} (m : M A) (k : A -> M B) t t1 a :
  m t = (t1, inr a) -> bind m k t = k a t1.
Proof. intros E. unfold bind. rewrite E. reflexivity. Qed.

Lemma sumN_app l1 l2 : sumN (l1 ++ l2) = (sumN l1 + sumN l2)%N.
Proof. unfold sumN. induction l1 as [|x l1 IH]; cbn; [reflexivity|]. rewrite IH. lia. Qed.

(** One category: [sum_sizes] and [list_entries] make the same calls; the
    sizes summed are those of the entries listed. *)
Lemma scan_entries H cat : forall files s acc t,
  exists t' new,
    sum_sizes H cat files s t = (t', inr (s + sumN (map entry_size new))%N) /\
    list_entries H cat files acc t = (t', inr (acc ++ new)) /\
    (List.length new <= List.length files)%nat /\
    Forall (fun e => entry_category e = cat /\
                     entry_path e = ("aurora-files/" ++ cat ++ "/" ++ entry_name e)%string) new /\
    ((forall h c, is_stat c = true -> exists n, bridge H h c = RSize n) ->
     List.length new = List.length files).
Proof.
  induction files as [|fname rest IH]; intros s acc t.
  - exists t, []. cbn. rewrite N.add_0_r, app_nil_r. repeat split; auto.
  - cbn [sum_sizes list_entries].
    set (c := CStat ("aurora-files/" ++ cat ++ "/" ++ fname) Data).
    rewrite (bind_step _ _ t _ _ (catch_stat H c _ _ t)).
    rewrite (bind_step _ _ t _ _ (catch_stat H c _ _ t)).
    destruct (bridge H t c) as [| | | n |] eqn:E.
    4: { set (en := {| entry_name := fname;
                       entry_path := "aurora-files/" ++ cat ++ "/" ++ fname;
                       entry_category := cat; entry_size := n |}).
         destruct (IH (s + n)%N (acc ++ [en]) (t ++ [c]))
           as (t' & new & E1 & E2 & Hl & Hf & Hall).
         exists t', (en :: new). rewrite E1, E2, <- app_assoc.
         split; [change (sumN (map entry_size (en :: new))) with (n + sumN (map entry_size new))%N;
                 rewrite N.add_assoc; reflexivity|].
         split; [reflexivity|]. split; [cbn; lia|]. split; [constructor; [split; reflexivity | exact Hf]|].
         intros Hs. cbn. f_equal. now apply Hall. }
    all: destruct (IH s acc (t ++ [c])) as (t' & new & E1 & E2 & Hl & Hf & Hall);
         exists t', new; rewrite E1, E2; repeat split; auto; [cbn; lia|];
         intros Hs; destruct (Hs t c eq_refl) as [n' En']; congruence.
Qed.

(** The category loops of [getNativeStorageStats] and [getNativeStorageFiles]
    make the same calls and agree on the sizes of the entries listed. *)
Lemma scan_categories H : forall cats count s acc t,
  incl cats categories ->
  s = sumN (map entry_size acc) ->
  (N.of_nat (List.length acc) <= count)%N ->
  Forall entry_ok acc ->
  exists t' count' acc',
    stats_loop H cats count s t = (t', inr (count', sumN (map entry_size acc'))) /\
    files_loop H cats acc t = (t', inr acc') /\
    (N.of_nat (List.length acc') <= count')%N /\
    Forall entry_ok acc' /\
    ((forall h c, is_stat c = true -> exists n, bridge H h c = RSize n) ->
     N.of_nat (List.length acc) = count -> N.of_nat (List.length acc') = count').
Proof.
  induction cats as [|cat rest IH]; intros count s acc t Hinc Hs Hl Hf.
  - exists t, count, acc. subst s. repeat split; auto.
  - cbn [stats_loop files_loop].
    set (c := CReaddir ("aurora-files/" ++ cat) Data).
    assert (Hcat : In cat categories) by (apply Hinc; left; reflexivity).
    assert (Hrest : incl rest categories) by (intros x Hx; apply Hinc; right; exact Hx).
    unfold bind at 1. rewrite catch_readdir. unfold bind at 2. rewrite catch_readdir.
    destruct (bridge H t c) as [| | l | |] eqn:E.
    3: { destruct (scan_entries H cat l s acc (t ++ [c])) as (t1 & new & E1 & E2 & Hl1 & Hf1 & Hall1).
         unfold catch_ at 1, bind at 1. rewrite E1. unfold catch_, ret at 1. rewrite E2. cbn [fst snd].
         destruct (IH (count + N.of_nat (List.length l))%N (s + sumN (map entry_size new))%N
                      (acc ++ new) t1 Hrest)
           as (t' & count' & acc' & F1 & F2 & Hl' & Hf' & Hall').
         + rewrite map_app, sumN_app, Hs. reflexivity.
         + rewrite length_app. lia.
         + apply Forall_app. split; [exact Hf|].
           eapply Forall_impl; [|exact Hf1]. intros e [Hc Hp]. split; [rewrite Hc; exact Hcat|].
           rewrite Hc. exact Hp.
         + exists t', count', acc'. repeat split; auto.
           intros Hst Hcnt. apply Hall'; [exact Hst|].
           rewrite length_app, (Hall1 Hst). lia. }
    all: unfold ret at 1 2; cbn [fst snd];
         destruct (IH count s acc (t ++ [c]) Hrest Hs Hl Hf)
           as (t' & count' & acc' & F1 & F2 & Hl' & Hf' & Hall');
         exists t', count', acc'; repeat split; auto.
Qed.

(** [getNativeStorageStats] and [getNativeStorageFiles] issue the same bridge
    calls; neither rejects; the total size is the sum of the sizes of the
    entries listed, and the count is at least the number of entries. *)
Theorem getNativeStorageStats_files_agree H t :
  fst (getNativeStorageStats H t) = fst (getNativeStorageFiles H t) /\
  exists count entries,
    snd (getNativeStorageStats H t) = inr (count, sumN (map entry_size entries)) /\
    snd (getNativeStorageFiles H t) = inr entries /\
    (N.of_nat (List.length entries) <= count)%N.
Proof.
  unfold getNativeStorageStats, getNativeStorageFiles.
  destruct (isNativePlatform H); cbn [negb].
  - destruct (scan_categories H categories 0 0 [] t (incl_refl _) eq_refl (N.le_refl _) (Forall_nil _))
      as (t' & count' & acc' & F1 & F2 & Hl & _ & _).
    rewrite F1, F2. split; [reflexivity|]. exists count', acc'. repeat split; auto.
  - split; [reflexivity|]. exists 0%N, []. repeat split; cbn; lia.
Qed.

(** Every entry [getNativeStorageFiles] returns lies in one of the four
    category folders, at the path "aurora-files/<category>/<name>". *)
Theorem getNativeStorageFiles_entry_paths H t :
  exists entries, snd (getNativeStorageFiles H t) = inr entries /\ Forall entry_ok entries.
Proof.
  unfold getNativeStorageFiles.
  destruct (isNativePlatform H); cbn [negb].
  - destruct (scan_categories H categories 0 0 [] t (incl_refl _) eq_refl (N.le_refl _) (Forall_nil _))
      as (t' & count' & acc' & F1 & F2 & _ & Hf & _).
    rewrite F2. exists acc'. split; auto.
  - exists []. split; [reflexivity | constructor].
Qed.

(** When no [stat] fails, the count of [getNativeStorageStats] is exactly the
    number of entries [getNativeStorageFiles] lists. *)
Theorem getNativeStorageStats_count_exact H t
  (Hstat : forall h c, is_stat c = true -> exists n, bridge H h c = RSize n) :
  exists entries,
    snd (getNativeStorageFiles H t) = inr entries /\
    snd (getNativeStorageStats H t) =
      inr (N.of_nat (List.length entries), sumN (map entry_size entries)).
Proof.
  unfold getNativeStorageStats, getNativeStorageFiles.
  destruct (isNativePlatform H); cbn [negb].
  - destruct (scan_categories H categories 0 0 [] t (incl_refl _) eq_refl (N.le_refl _) (Forall_nil _))
      as (t' & count' & acc' & F1 & F2 & _ & _ & Hall).
    rewrite F1, F2. exists acc'. split; [reflexivity|].
    rewrite (Hall Hstat eq_refl). reflexivity.
  - exists []. split; reflexivity.
Qed.

Lemma getNativeStorageStats_count_exact_witness :
  (forall h c, is_stat c = true -> exists n, bridge (mk_host true full_scan_bridge) h c = RSize n) /\
  exists entries,
    snd (getNativeStorageFiles (mk_host true full_scan_bridge) []) = inr entries /\
    snd (getNativeStorageStats (mk_host true full_scan_bridge) []) =
      inr (N.of_nat (List.length entries), sumN (map entry_size entries)).
Proof.
  assert (Hs : forall h c, is_stat c = true ->
                 exists n, bridge (mk_host true full_scan_bridge) h c = RSize n).
  { intros h c Hc. destruct c; try discriminate Hc. eexists. reflexivity. }
  split; [exact Hs|]. apply (getNativeStorageStats_count_exact (mk_host true full_scan_bridge) [] Hs).
Defined.

(** ** saveFile and deleteFile *)

Lemma bind_getUri_ok {A} H (m : M A) p sz mt t t' r :
  bind m (fun _ => bind (invoke_str H (CGetUri p Data))
                        (fun res => ret {| uri := res; size := sz; mimeType := mt |})) t = (t', inr r) ->
  exists t1, t' = t1 ++ [CGetUri p Data] /\ bridge H t1 (CGetUri p Data) = RStr (uri r) /\
             size r = sz /\ mimeType r = mt.
Proof.
  unfold bind at 1. destruct (m t) as [t0 [e|a]]; [discriminate|].
  unfold bind, invoke_str, invoke, ret, throw. cbn.
  destruct (bridge H t0 (CGetUri p Data)) eqn:E; intros Hr; inversion Hr; subst.
  exists t0. cbn. auto.
Qed.

(** On a native platform a resolved [saveFile] made [getUri] on the saved
    path its last call, and the [uri] it returns is that call's answer; the
    [size] and [mimeType] are the file's. *)
Theorem saveFile_uri_from_getUri H f now rnd t t' r
  (Hn : isNativePlatform H = true)
  (Hok : saveFile H f now rnd t = (t', inr r)) :
  exists t1, t' = t1 ++ [CGetUri (savePath f now rnd) Data] /\
             bridge H t1 (CGetUri (savePath f now rnd) Data) = RStr (uri r) /\
             size r = file_size f /\ mimeType r = type f.
Proof.
  destruct (truthy (sourceUri f)) eqn:Ht.
  - destruct (truthy_some _ Ht) as (src & Hs & Hne).
    rewrite (saveFile_copy_unfold H f now rnd t src Hn Hs Hne) in Hok.
    exact (bind_getUri_ok _ _ _ _ _ _ _ _ Hok).
  - rewrite (saveFile_chunked_unfold H f now rnd t Hn Ht) in Hok.
    exact (bind_getUri_ok _ _ _ _ _ _ _ _ Hok).
Qed.

Lemma saveFile_uri_from_getUri_witness :
  exists t' r, saveFile native_ok_host picked_file 1700000000000 "0.4fzyo82mvyr" [] = (t', inr r) /\
  exists t1, t' = t1 ++ [CGetUri (savePath picked_file 1700000000000 "0.4fzyo82mvyr") Data] /\
             bridge native_ok_host t1 (CGetUri (savePath picked_file 1700000000000 "0.4fzyo82mvyr") Data)
               = RStr (uri r) /\
             size r = file_size picked_file /\ mimeType r = type picked_file.
Proof.
  eexists _, _. split; [vm_compute; reflexivity|].
  apply (saveFile_uri_from_getUri native_ok_host picked_file 1700000000000 "0.4fzyo82mvyr" []);
    [reflexivity | vm_compute; reflexivity].
Defined.

Lemma app_empty_r_str s : (s ++ EmptyString)%string = s.
Proof. induction s as [|c s IH]; cbn; [reflexivity | rewrite IH; reflexivity]. Qed.

Lemma app_assoc_str a b c : (a ++ (b ++ c))%string = ((a ++ b) ++ c)%string.
Proof. induction a as [|x a IH]; cbn; [reflexivity | rewrite IH; reflexivity]. Qed.

Lemma length_app_str a b : String.length (a ++ b) = (String.length a + String.length b)%nat.
Proof. induction a as [|x a IH]; cbn; [reflexivity | rewrite IH; reflexivity]. Qed.

Lemma prefix_app_inv p s : prefix p s = true -> exists r, s = (p ++ r)%string.
Proof.
  revert s. induction p as [|a p IH]; intros s Hp.
  - exists s. reflexivity.
  - destruct s as [|b s]; [discriminate|]. cbn in Hp.
    destruct (ascii_dec a b) as [->|]; [|discriminate].
    destruct (IH s Hp) as [r ->]. exists r. reflexivity.
Qed.


Lemma substring_0_full r m : (String.length r <= m)%nat -> substring 0 m r = r.
Proof.
  revert m. induction r as [|c r IH]; intros m Hm; destruct m; cbn in *; try reflexivity; try lia.
  rewrite IH; [reflexivity | lia].
Qed.

Lemma substring_after p r m :
  (String.length r <= m)%nat -> substring (String.length p) m (p ++ r) = r.
Proof.
  intros Hm. induction p as [|c p IH]; cbn.
  - apply substring_0_full, Hm.
  - exact IH.
Qed.

Lemma line_prefix_split l : exists tl, l = (line_prefix l ++ tl)%string.
Proof.
  induction l as [|c l [tl IH]]; cbn.
  - exists EmptyString. reflexivity.
  - destruct (is_line_terminator c).
    + exists (String c l). reflexivity.
    + exists tl. cbn. rewrite <- IH. reflexivity.
Qed.

Lemma line_prefix_idem l : line_prefix (line_prefix l) = line_prefix l.
Proof.
  induction l as [|c l IH]; cbn; [reflexivity|].
  destruct (is_line_terminator c) eqn:E; cbn; [reflexivity|]. rewrite E, IH. reflexivity.
Qed.

(** What [/aurora-files\/.+/] returns: "aurora-files/" and a non-empty
    run of characters up to the first line terminator, found in [u]. *)
Lemma match_managed_some u m :
  match_managed u = Some m ->
  exists a b l, u = (a ++ m ++ b)%string /\ m = (managed_root ++ l)%string /\
                l <> EmptyString /\ line_prefix l = l.
Proof.
  induction u as [|c u IH]; cbn [match_managed]; [discriminate|].
  destruct (match_at (String c u)) as [m'|] eqn:Ma.
  - intros [= <-]. unfold match_at in Ma.
    destruct (prefix managed_root (String c u)) eqn:Hp; [|discriminate].
    destruct (prefix_app_inv _ _ Hp) as [r Er]. rewrite Er in Ma.
    rewrite substring_after in Ma by (rewrite length_app_str; lia).
    destruct (line_prefix_split r) as [tl Etl].
    destruct (line_prefix r) as [|x xs] eqn:El; [discriminate|].
    injection Ma as <-.
    exists EmptyString, tl, (String x xs). cbn [String.append].
    split; [rewrite Er, Etl, app_assoc_str; reflexivity|].
    split; [reflexivity|]. split; [discriminate|].
    rewrite <- El. apply line_prefix_idem.
  - intros Hm. destruct (IH Hm) as (a & b & l & E1 & E2 & E3 & E4).
    exists (String c a), b, l. rewrite E1. auto.
Qed.



Lemma deleteFile_native_unfold H u t :
  isNativePlatform H = true ->
  deleteFile H u t = match match_managed u with
                     | Some m => (t ++ [CDeleteFile m Data], inr tt)
                     | None => (t, inr tt)
                     end.
Proof.
  intros Hn. unfold deleteFile. rewrite Hn. cbn [negb].
  destruct (match_managed u); [|reflexivity].
  unfold catch_, invoke_unit, bind, invoke, ret, throw. cbn.
  destruct (bridge H t (CDeleteFile s Data)); reflexivity.
Qed.

(** On a native platform [deleteFile] issues at most one call, a
    [deleteFile] of a piece of the URI that starts with "aurora-files/",
    has at least one more character and stops before any line terminator;
    a URI without such a piece is ignored. *)
Theorem deleteFile_native_target H u t
  (Hn : isNativePlatform H = true) :
  fst (deleteFile H u t) = t \/
  exists m a b l, fst (deleteFile H u t) = t ++ [CDeleteFile m Data] /\
                  u = (a ++ m ++ b)%string /\ m = (managed_root ++ l)%string /\
                  l <> EmptyString /\ line_prefix l = l.
Proof.
  rewrite (deleteFile_native_unfold H u t Hn).
  destruct (match_managed u) as [m|] eqn:Em; [right | left; reflexivity].
  destruct (match_managed_some u m Em) as (a & b & l & E1 & E2 & E3 & E4).
  exists m, a, b, l. auto.
Qed.

Lemma deleteFile_native_target_witness :
  isNativePlatform native_ok_host = true /\
  (fst (deleteFile native_ok_host "file:///data/aurora-files/videos/1_a.mp4" []) = [] \/
   exists m a b l, fst (deleteFile native_ok_host "file:///data/aurora-files/videos/1_a.mp4" [])
                     = [] ++ [CDeleteFile m Data] /\
                   "file:///data/aurora-files/videos/1_a.mp4" = (a ++ m ++ b)%string /\
                   m = (managed_root ++ l)%string /\ l <> EmptyString /\ line_prefix l = l).
Proof.
  split; [reflexivity|].
  apply (deleteFile_native_target native_ok_host "file:///data/aurora-files/videos/1_a.mp4" []).
  reflexivity.
Defined.



(** ** A failing chunked save *)

(** A rejected [chunk_loop] stopped in its [j]-th iteration: either the
    chunk write the bridge rejected, or, before any call of that iteration,
    the read of the chunk ([blobToBase64]) that rejected. *)
Lemma chunk_loop_fail H f p : forall fuel off first t t' e,
  (N.to_nat (ceil_div (file_size f - off) chunkSize) <= fuel)%nat ->
  chunk_loop H f p fuel off first t = (t', inl e) ->
  exists j,
    (j < N.to_nat (ceil_div (file_size f - off) chunkSize))%nat /\
    ((t' = t ++ firstn (2 * j + 1) (loop_calls H f p (N.to_nat (ceil_div (file_size f - off) chunkSize)) off first) /\
      bridge H (t ++ firstn (2 * j) (loop_calls H f p (N.to_nat (ceil_div (file_size f - off) chunkSize)) off first))
        (nth (2 * j) (loop_calls H f p (N.to_nat (ceil_div (file_size f - off) chunkSize)) off first) CYield)
      = RErr e) \/
     (t' = t ++ firstn (2 * j) (loop_calls H f p (N.to_nat (ceil_div (file_size f - off) chunkSize)) off first) /\
      readerError H (t ++ firstn (2 * j) (loop_calls H f p (N.to_nat (ceil_div (file_size f - off) chunkSize)) off first))
        (slice (bytes f) (off + N.of_nat j * chunkSize) (off + N.of_nat j * chunkSize + chunkSize))
      = Some e)).
Proof.
  pose proof chunkSize_pos as Hc.
  induction fuel as [|fuel IH]; intros off first t t' e Hle Hrun.
  - cbn in Hrun. discriminate.
  - cbn [chunk_loop] in Hrun. destruct (N.ltb_spec off (file_size f)) as [Hlt|Hge].
    + assert (Hstep : N.to_nat (ceil_div (file_size f - off) chunkSize)
                      = S (N.to_nat (ceil_div (file_size f - (off + chunkSize)) chunkSize))).
      { rewrite N.sub_add_distr, ceil_div_pos, ceil_div_sub by lia. lia. }
      rewrite Hstep in Hle |- *. cbn [loop_calls].
      rewrite bind_read in Hrun. destruct (readerError H t _) as [er|] eqn:Er.
      { injection Hrun as <- <-. exists 0%nat. split; [lia|]. right. cbn [firstn Nat.mul].
        rewrite app_nil_r. split; [reflexivity|].
        replace (off + N.of_nat 0 * chunkSize)%N with off by lia. exact Er. }
      destruct first; rewrite bind_invoke_unit in Hrun; destruct (bridge H t _) eqn:Eb;
        try (injection Hrun as <- <-; exists 0%nat; split; [lia|]; left; cbn;
             rewrite app_nil_r; split; [reflexivity | exact Eb]);
        rewrite bind_emit in Hrun; apply IH in Hrun as (j & Hj & Hcase); try lia;
        exists (S j); (split; [lia|]);
        replace (2 * S j + 1)%nat with (S (S (2 * j + 1))) by lia;
        replace (2 * S j)%nat with (S (S (2 * j))) by lia; cbn [firstn nth];
        (destruct Hcase as [[E1 E2] | [E1 E2]]; [left | right]);
        (split; [rewrite E1, <- !app_assoc; reflexivity|]);
        try replace (off + N.of_nat (S j) * chunkSize)%N
              with (off + chunkSize + N.of_nat j * chunkSize)%N by lia;
        rewrite <- E2; f_equal; rewrite <- !app_assoc; reflexivity.
    + cbn in Hrun. discriminate.
Qed.

Lemma getUri_fail H c sz mt t0 t' e :
  bind (invoke_str H c) (fun res => ret {| uri := res; size := sz; mimeType := mt |}) t0 = (t', inl e) ->
  t' = t0 ++ [c] /\ forall s, bridge H t0 c <> RStr s.
Proof.
  unfold bind, invoke_str, invoke, ret, throw. cbn.
  destruct (bridge H t0 c) eqn:Eg; intros Hf; inversion Hf; subst;
    (split; [reflexivity | intros s' Hs'; congruence]).
Qed.

(** A chunked [saveFile] that rejects stopped where it failed: at the
    [j]-th chunk write, rejected with that same error after [j] accepted
    writes; or at the read of the [j]-th chunk ([blobToBase64]), which
    rejected with that error before any call for that chunk; or at the final
    [getUri].  Nothing follows the failure: no further chunk, no [getUri],
    no removal of the partial file. *)
Theorem saveFile_chunk_failure H f now rnd t t' e
  (Hn : isNativePlatform H = true)
  (Hsrc : truthy (sourceUri f) = false)
  (Hfail : saveFile H f now rnd t = (t', inl e)) :
  (exists j,
     (j < N.to_nat (ceil_div (file_size f) chunkSize))%nat /\
     t' = t ++ firstn (2 * j + 1) (loop_calls H f (savePath f now rnd) (N.to_nat (ceil_div (file_size f) chunkSize)) 0 true) /\
     bridge H (t ++ firstn (2 * j) (loop_calls H f (savePath f now rnd) (N.to_nat (ceil_div (file_size f) chunkSize)) 0 true))
       (nth (2 * j) (loop_calls H f (savePath f now rnd) (N.to_nat (ceil_div (file_size f) chunkSize)) 0 true) CYield)
     = RErr e) \/
  (exists j,
     (j < N.to_nat (ceil_div (file_size f) chunkSize))%nat /\
     t' = t ++ firstn (2 * j) (loop_calls H f (savePath f now rnd) (N.to_nat (ceil_div (file_size f) chunkSize)) 0 true) /\
     readerError H (t ++ firstn (2 * j) (loop_calls H f (savePath f now rnd) (N.to_nat (ceil_div (file_size f) chunkSize)) 0 true))
       (slice (bytes f) (N.of_nat j * chunkSize) (N.of_nat j * chunkSize + chunkSize))
     = Some e) \/
  (t' = t ++ loop_calls H f (savePath f now rnd) (N.to_nat (ceil_div (file_size f) chunkSize)) 0 true
          ++ [CGetUri (savePath f now rnd) Data] /\
   forall s, bridge H (t ++ loop_calls H f (savePath f now rnd) (N.to_nat (ceil_div (file_size f) chunkSize)) 0 true)
                    (CGetUri (savePath f now rnd) Data) <> RStr s).
Proof.
  rewrite (saveFile_chunked_unfold H f now rnd t Hn Hsrc) in Hfail.
  unfold bind at 1 in Hfail.
  destruct (saveFileChunked H f (savePath f now rnd) t) as [t0 [e0|[]]] eqn:Es.
  - injection Hfail as <- <-.
    unfold saveFileChunked in Es. apply chunk_loop_fail in Es.
    + rewrite N.sub_0_r in Es. destruct Es as (j & Hj & [[E1 E2] | [E1 E2]]).
      * left. exists j. auto.
      * right; left. exists j. split; [exact Hj|]. split; [exact E1|].
        rewrite !N.add_0_l in E2. exact E2.
    + rewrite N.sub_0_r. pose proof (ceil_div_le (file_size f) chunkSize chunkSize_pos).
      unfold file_size in *. lia.
  - apply saveFileChunked_run in Es. subst t0. right; right.
    apply getUri_fail in Hfail as [-> Hs]. split; [rewrite <- app_assoc; reflexivity | exact Hs].
Qed.

Lemma saveFile_chunk_failure_witness :
  (exists t' e,
     saveFile (mk_host true write_fail_bridge) clip_file 1700000000000 "0.4fzyo82mvyr" [] = (t', inl e) /\
     (  (exists j,
        (j < N.to_nat (ceil_div (file_size clip_file) chunkSize))%nat /\
        t' = [] ++ firstn (2 * j + 1) (loop_calls (mk_host true write_fail_bridge) clip_file (savePath clip_file 1700000000000 "0.4fzyo82mvyr") (N.to_nat (ceil_div (file_size clip_file) chunkSize)) 0 true) /\
        bridge (mk_host true write_fail_bridge) ([] ++ firstn (2 * j) (loop_calls (mk_host true write_fail_bridge) clip_file (savePath clip_file 1700000000000 "0.4fzyo82mvyr") (N.to_nat (ceil_div (file_size clip_file) chunkSize)) 0 true))
          (nth (2 * j) (loop_calls (mk_host true write_fail_bridge) clip_file (savePath clip_file 1700000000000 "0.4fzyo82mvyr") (N.to_nat (ceil_div (file_size clip_file) chunkSize)) 0 true) CYield)
        = RErr e) \/
     (exists j,
        (j < N.to_nat (ceil_div (file_size clip_file) chunkSize))%nat /\
        t' = [] ++ firstn (2 * j) (loop_calls (mk_host true write_fail_bridge) clip_file (savePath clip_file 1700000000000 "0.4fzyo82mvyr") (N.to_nat (ceil_div (file_size clip_file) chunkSize)) 0 true) /\
        readerError (mk_host true write_fail_bridge) ([] ++ firstn (2 * j) (loop_calls (mk_host true write_fail_bridge) clip_file (savePath clip_file 1700000000000 "0.4fzyo82mvyr") (N.to_nat (ceil_div (file_size clip_file) chunkSize)) 0 true))
          (slice (bytes clip_file) (N.of_nat j * chunkSize) (N.of_nat j * chunkSize + chunkSize))
        = Some e) \/
     (t' = [] ++ loop_calls (mk_host true write_fail_bridge) clip_file (savePath clip_file 1700000000000 "0.4fzyo82mvyr") (N.to_nat (ceil_div (file_size clip_file) chunkSize)) 0 true
             ++ [CGetUri (savePath clip_file 1700000000000 "0.4fzyo82mvyr") Data] /\
      forall s, bridge (mk_host true write_fail_bridge) ([] ++ loop_calls (mk_host true write_fail_bridge) clip_file (savePath clip_file 1700000000000 "0.4fzyo82mvyr") (N.to_nat (ceil_div (file_size clip_file) chunkSize)) 0 true)
                       (CGetUri (savePath clip_file 1700000000000 "0.4fzyo82mvyr") Data) <> RStr s))) /\
  (exists t' e,
     saveFile (reader_fail_host) clip_file 1700000000000 "0.4fzyo82mvyr" [] = (t', inl e) /\
     (  (exists j,
        (j < N.to_nat (ceil_div (file_size clip_file) chunkSize))%nat /\
        t' = [] ++ firstn (2 * j + 1) (loop_calls (reader_fail_host) clip_file (savePath clip_file 1700000000000 "0.4fzyo82mvyr") (N.to_nat (ceil_div (file_size clip_file) chunkSize)) 0 true) /\
        bridge (reader_fail_host) ([] ++ firstn (2 * j) (loop_calls (reader_fail_host) clip_file (savePath clip_file 1700000000000 "0.4fzyo82mvyr") (N.to_nat (ceil_div (file_size clip_file) chunkSize)) 0 true))
          (nth (2 * j) (loop_calls (reader_fail_host) clip_file (savePath clip_file 1700000000000 "0.4fzyo82mvyr") (N.to_nat (ceil_div (file_size clip_file) chunkSize)) 0 true) CYield)
        = RErr e) \/
     (exists j,
        (j < N.to_nat (ceil_div (file_size clip_file) chunkSize))%nat /\
        t' = [] ++ firstn (2 * j) (loop_calls (reader_fail_host) clip_file (savePath clip_file 1700000000000 "0.4fzyo82mvyr") (N.to_nat (ceil_div (file_size clip_file) chunkSize)) 0 true) /\
        readerError (reader_fail_host) ([] ++ firstn (2 * j) (loop_calls (reader_fail_host) clip_file (savePath clip_file 1700000000000 "0.4fzyo82mvyr") (N.to_nat (ceil_div (file_size clip_file) chunkSize)) 0 true))
          (slice (bytes clip_file) (N.of_nat j * chunkSize) (N.of_nat j * chunkSize + chunkSize))
        = Some e) \/
     (t' = [] ++ loop_calls (reader_fail_host) clip_file (savePath clip_file 1700000000000 "0.4fzyo82mvyr") (N.to_nat (ceil_div (file_size clip_file) chunkSize)) 0 true
             ++ [CGetUri (savePath clip_file 1700000000000 "0.4fzyo82mvyr") Data] /\
      forall s, bridge (reader_fail_host) ([] ++ loop_calls (reader_fail_host) clip_file (savePath clip_file 1700000000000 "0.4fzyo82mvyr") (N.to_nat (ceil_div (file_size clip_file) chunkSize)) 0 true)
                       (CGetUri (savePath clip_file 1700000000000 "0.4fzyo82mvyr") Data) <> RStr s))).
Proof.
  split.
  - eexists _, _. split; [vm_compute; reflexivity|].
    apply (saveFile_chunk_failure (mk_host true write_fail_bridge) clip_file 1700000000000 "0.4fzyo82mvyr" []);
      [reflexivity | reflexivity | vm_compute; reflexivity].
  - eexists _, _. split; [vm_compute; reflexivity|].
    apply (saveFile_chunk_failure reader_fail_host clip_file 1700000000000 "0.4fzyo82mvyr" []);
      [reflexivity | reflexivity | vm_compute; reflexivity].
Defined.

(** ** What saveFile never does *)

Lemma chunk_trace_save l : chunk_trace l -> Forall (fun c => is_save_call c = true) l.
Proof.
  induction 1 as [|w Hw|w l Hw _ IH]; repeat constructor; try exact IH;
    destruct w; try discriminate Hw; reflexivity.
Qed.

(** [saveFile] only adds calls of its own kinds to the trace: it never
    deletes, lists or stats a file and never revokes a blob URL, even when
    it fails half-way (a partly written file is left in place). *)
Theorem saveFile_only_save_calls H f now rnd t :
  exists new, fst (saveFile H f now rnd t) = t ++ new /\
              Forall (fun c => is_save_call c = true) new.
Proof.
  destruct (isNativePlatform H) eqn:Hn.
  - destruct (truthy (sourceUri f)) eqn:Ht.
    + destruct (truthy_some _ Ht) as (src & Hs & Hne).
      destruct (saveFile_copy_trace H f now rnd t src Hn Hs Hne) as (rest & E & Hr).
      eexists. split; [exact E|].
      constructor; [reflexivity|]. destruct Hr as [-> | [-> | ->]]; repeat constructor.
    + destruct (saveFile_chunked_trace H f now rnd t Hn Ht) as (new & rest & E & Ct & _ & Hr & _).
      exists (new ++ rest). split; [exact E|]. apply Forall_app. split; [now apply chunk_trace_save|].
      destruct Hr as [-> | ->]; repeat constructor.
  - rewrite (saveFile_web H f now rnd t Hn). eexists. split; [reflexivity | repeat constructor].
Qed.

(** ** getFileUrl *)

(** On the web [getFileUrl] gives the empty string, which its callers test
    with [if (url)], exactly when the node has neither a non-empty
    [nativeUri] nor a non-empty [content]: an empty [nativeUri] falls
    through to [content]. *)
Theorem getFileUrl_web_empty H n
  (Hn : isNativePlatform H = false) :
  getFileUrl H n = EmptyString <-> truthy (nativeUri n) = false /\ truthy (content n) = false.
Proof.
  unfold getFileUrl, convertFileSrc, js_or. rewrite Hn. cbn [negb].
  destruct (nativeUri n) as [u|]; [destruct (truthy (Some u)) eqn:Tu|];
    destruct (content n) as [c|]; cbn [truthy] in *;
    repeat match goal with
           | |- context [String.eqb ?x ""] => destruct (String.eqb_spec x "")
           | H0 : context [String.eqb ?x ""] |- _ => destruct (String.eqb_spec x "")
           end; cbn in *; subst; split; intros; try tauto; try discriminate; try congruence;
    destruct H0; congruence.
Qed.

Lemma getFileUrl_web_empty_witness :
  isNativePlatform web_host = false /\
  (getFileUrl web_host {| nativeUri := Some ""; content := Some "" |} = EmptyString <->
   truthy (nativeUri {| nativeUri := Some ""; content := Some "" |}) = false /\
   truthy (content {| nativeUri := Some ""; content := Some "" |}) = false).
Proof.
  split; [reflexivity|]. apply getFileUrl_web_empty. reflexivity.
Defined.

(** ** The upload progress toast *)

Lemma run_updates_shown rest : forall id u ts,
  toastId u = Some id ->
  toastId (fst (run_updates rest u ts)) = Some id /\
  next_id (snd (run_updates rest u ts)) = next_id ts /\
  shown (snd (run_updates rest u ts)) = shown ts ++ map (fun p => ToastUpdate id (Z.min p 100)) rest.
Proof.
  induction rest as [|p rest IH]; intros id u ts Hid; cbn [run_updates map].
  - rewrite app_nil_r. auto.
  - unfold updateProgress. rewrite Hid.
    destruct (IH id {| toastId := Some id; currentProgress := Z.min p 100 |}
                 {| next_id := next_id ts; shown := shown ts ++ [ToastUpdate id (Z.min p 100)] |}
                 eq_refl) as (E1 & E2 & E3).
    rewrite E1, E2, E3. cbn. rewrite <- app_assoc. auto.
Qed.

(** One upload, from [notify.uploadProgress] to [complete()]: the first
    [updateProgress] shows one new toast, every later one re-renders that
    same toast, [complete] dismisses it and clears [toastId]; progress is
    shown capped at 100.  Without any update nothing is shown or dismissed. *)
Theorem upload_toast_lifecycle ps ts :
  toastId (fst (complete (fst (run_updates ps uploadProgress ts)) (snd (run_updates ps uploadProgress ts))))
    = None /\
  match ps with
  | [] => snd (complete (fst (run_updates ps uploadProgress ts)) (snd (run_updates ps uploadProgress ts))) = ts
  | p0 :: rest =>
      next_id (snd (complete (fst (run_updates ps uploadProgress ts)) (snd (run_updates ps uploadProgress ts))))
        = S (next_id ts) /\
      shown (snd (complete (fst (run_updates ps uploadProgress ts)) (snd (run_updates ps uploadProgress ts))))
        = shown ts ++ ToastCreate (next_id ts) (Z.min p0 100)
                   :: map (fun p => ToastUpdate (next_id ts) (Z.min p 100)) rest
                   ++ [ToastDismiss (next_id ts)]
  end.
Proof.
  destruct ps as [|p0 rest]; [split; reflexivity|].
  cbn [run_updates updateProgress uploadProgress toastId].
  destruct (run_updates_shown rest (next_id ts)
              {| toastId := Some (next_id ts); currentProgress := Z.min p0 100 |}
              {| next_id := S (next_id ts); shown := shown ts ++ [ToastCreate (next_id ts) (Z.min p0 100)] |}
              eq_refl) as (E1 & E2 & E3).
  unfold complete. rewrite E1. cbn [fst snd toastId next_id shown].
  split; [reflexivity|]. rewrite E2, E3. cbn. split; [reflexivity|].
  rewrite <- !app_assoc. reflexivity.
Qed.

(** ** Where saveFile copies from, and the extension it keeps *)

(** [file.path || file.webPath]: a file whose [path] is missing or empty
    but whose [webPath] is non-empty is copied from its [webPath] (the first
    copy targets [Directory.External]). *)
Theorem saveFile_webPath_fallback H f now rnd t w
  (Hn : isNativePlatform H = true)
  (Hp : truthy (path f) = false)
  (Hw : webPath f = Some w)
  (Hne : w <> EmptyString) :
  exists rest, fst (saveFile H f now rnd t)
               = t ++ CCopy w (savePath f now rnd) Data (Some External) :: rest.
Proof.
  assert (Hs : sourceUri f = Some w) by (unfold sourceUri, js_or; rewrite Hp; exact Hw).
  destruct (saveFile_copy_trace H f now rnd t w Hn Hs Hne) as (rest & E & _).
  exists rest. exact E.
Qed.

Lemma saveFile_webPath_fallback_witness :
  isNativePlatform native_ok_host = true /\ truthy (path webpath_file) = false /\
  webPath webpath_file = Some "capacitor://localhost/_capacitor_file_/cache/clip.mp4" /\
  exists rest, fst (saveFile native_ok_host webpath_file 1700000000000 "0.4fzyo82mvyr" [])
               = [] ++ CCopy "capacitor://localhost/_capacitor_file_/cache/clip.mp4"
                             (savePath webpath_file 1700000000000 "0.4fzyo82mvyr") Data (Some External) :: rest.
Proof.
  split; [reflexivity|]. split; [reflexivity|]. split; [reflexivity|].
  apply (saveFile_webPath_fallback native_ok_host webpath_file 1700000000000 "0.4fzyo82mvyr" []);
    [reflexivity | reflexivity | reflexivity | discriminate].
Defined.

(** [originalName.split('.').pop() || 'bin']: a name without a dot is kept
    whole as the extension of the generated file name; only the empty name
    falls back to "bin". *)
Theorem generateFilename_no_dot n now rnd
  (Hd : ~ In dot (list_ascii_of_string n)) :
  generateFilename n now rnd
  = (show_N now ++ "_" ++ js_substring rnd 2 8 ++ "." ++ (if String.eqb n "" then "bin" else n))%string.
Proof.
  unfold generateFilename, fileExtension. rewrite (split_dot_no_dot n Hd). reflexivity.
Qed.

Lemma generateFilename_no_dot_witness :
  ~ In dot (list_ascii_of_string "README") /\
  generateFilename "README" 1700000000000 "0.4fzyo82mvyr"
  = (show_N 1700000000000 ++ "_" ++ js_substring "0.4fzyo82mvyr" 2 8 ++ "." ++
     (if String.eqb "README" "" then "bin" else "README"))%string.
Proof.
  assert (Hd : ~ In dot (list_ascii_of_string "README")) by (cbn; intuition discriminate).
  split; [exact Hd | apply (generateFilename_no_dot "README" 1700000000000 "0.4fzyo82mvyr" Hd)].
Defined.
